(** * neobench: the command-line driver (main.go)

    A shallow embedding of [main], [runBenchmark], [collectResults],
    [initWorkload], [createScript] and [awaitCompletion] of main.go, with
    the Go standard library functions they call, and the properties of
    the benchmark orchestrator proved about them. *)

From Stdlib Require Import ZArith Lia Ascii String SpecFloat.
From stdpp Require Import base tactics option list list_numbers strings pretty gmap gmultiset sorting.

Local Open Scope char_scope.
Local Open Scope string_scope.
Local Open Scope list_scope.
Local Open Scope Z_scope.

(** ** Go's numeric types *)

Module GoNum.

(** [int], [int64] and [time.Duration] are 64-bit two's complement
    integers; arithmetic on them wraps around. *)
Definition wrap64 (z : Z) : Z := (z + 2 ^ 63) mod 2 ^ 64 - 2 ^ 63.

(** [uint(x)] for [x : int]: the same 64 bits read as unsigned. *)
Definition uint (z : Z) : Z := z mod 2 ^ 64.

Definition in_int64 (z : Z) : bool := (- 2 ^ 63 <=? z) && (z <? 2 ^ 63).

(** [float64] is IEEE 754 binary64: 53 bits of precision, exponents
    below 1024. *)
Definition float64 : Type := spec_float.

Definition f64_of_int (z : Z) : float64 := binary_normalize 53 1024 z 0 false.
Definition f64_div (x y : float64) : float64 := SFdiv 53 1024 x y.
Definition f64_add (x y : float64) : float64 := SFadd 53 1024 x y.

(** The magnitude of a finite float with mantissa [m] and exponent [e],
    with its fraction dropped. *)
Definition trunc_mag (m : positive) (e : Z) : Z :=
  if 0 <=? e then Z.pos m * 2 ^ e else Z.pos m / 2 ^ (- e).

(** [int64(x)] for [x : float64]: the fraction is discarded
    (truncation towards zero).  When the value does not fit the result
    type (also NaN and the infinities) the Go specification leaves the
    result to the implementation: [None] here, see [int64_of_float64]. *)
Definition f64_to_int64 (x : float64) : option Z :=
  match x with
  | S754_zero _ => Some 0
  | S754_finite s m e =>
      let v := if s then - trunc_mag m e else trunc_mag m e in
      if in_int64 v then Some v else None
  | S754_infinity _ | S754_nan => None
  end.

End GoNum.
Import GoNum.

(** ** [time] *)

Module GoTime.
(** A [time.Duration] counts nanoseconds. *)
Definition Duration : Type := Z.
Definition Microsecond : Duration := 1000.
Definition Millisecond : Duration := 1000 * Microsecond.
Definition Second : Duration := 1000 * Millisecond.
End GoTime.
Import GoTime.

(** ** [strings] and [strconv]

    Go strings are byte sequences; [string] here is a list of bytes
    ([ascii]). *)

Module GoStrings.

Definition byte_val (c : ascii) : Z := Z.of_N (N_of_ascii c).

Definition isUpper (c : ascii) : bool := (65 <=? byte_val c) && (byte_val c <=? 90).

(** ['A'..'Z'] to ['a'..'z'], every other byte unchanged. *)
Definition lowerByte (c : ascii) : ascii :=
  if isUpper c then ascii_of_N (N_of_ascii c + 32) else c.

Fixpoint mapBytes (f : ascii -> ascii) (s : string) : string :=
  match s with
  | EmptyString => EmptyString
  | String c s' => String (f c) (mapBytes f s')
  end.

(** No byte is [utf8.RuneSelf] (0x80) or above. *)
Fixpoint isASCII (s : string) : bool :=
  match s with
  | EmptyString => true
  | String c s' => (byte_val c <? 128) && isASCII s'
  end.

(** [strings.ToLower]: an all-ASCII string is lowered byte by byte; any
    other string goes through [strings.Map(unicode.ToLower, s)], which
    depends on the Unicode tables and is taken as [unicodeLower]. *)
Definition ToLower (unicodeLower : string -> string) (s : string) : string :=
  if isASCII s then mapBytes lowerByte s else unicodeLower s.

(** [strings.Split(s, sep)] for a separator of one byte: the pieces of
    [s] between the occurrences of [sep], in order; always at least one
    piece. *)
Fixpoint Split (sep : ascii) (s : string) : list string :=
  match s with
  | EmptyString => [EmptyString]
  | String c s' =>
      if Ascii.eqb c sep then EmptyString :: Split sep s'
      else match Split sep s' with
           | [] => [String c EmptyString]
           | piece :: pieces => String c piece :: pieces
           end
  end.

Fixpoint contains (sep : ascii) (s : string) : bool :=
  match s with
  | EmptyString => false
  | String c s' => Ascii.eqb c sep || contains sep s'
  end.

(** The letters of ASCII in their two cases, in the same order. *)
Definition lowerLetters : string := "abcdefghijklmnopqrstuvwxyz".
Definition upperLetters : string := "ABCDEFGHIJKLMNOPQRSTUVWXYZ".

(** The same byte, or the two cases of one letter. *)
Definition sameLetter (c d : ascii) : bool :=
  Ascii.eqb c d
  || existsb (fun p : ascii * ascii =>
                (Ascii.eqb c p.1 && Ascii.eqb d p.2) || (Ascii.eqb c p.2 && Ascii.eqb d p.1))
       (zip (list_ascii_of_string lowerLetters) (list_ascii_of_string upperLetters)).

(** Equality of two strings without regard to the case of the ASCII
    letters, byte by byte.  It is what "case-insensitively" means in the
    statements, and is defined from the alphabet, not from [ToLower]. *)
Fixpoint EqualFoldASCII (s t : string) : bool :=
  match s, t with
  | EmptyString, EmptyString => true
  | String c s', String d t' => sameLetter c d && EqualFoldASCII s' t'
  | _, _ => false
  end.

End GoStrings.
Import GoStrings.

Module strconv.

Definition digit (c : ascii) : option Z :=
  if (48 <=? byte_val c) && (byte_val c <=? 57) then Some (byte_val c - 48) else None.

(** The value of a run of decimal digits continuing [acc]; [None] when a
    byte is not a digit. *)
Fixpoint digits_val (acc : Z) (s : string) : option Z :=
  match s with
  | EmptyString => Some acc
  | String c s' => d ← digit c; digits_val (acc * 10 + d) s'
  end.

(** [strconv.ParseInt(s, 10, 64)], [None] for an error: an optional sign
    and at least one decimal digit (base 10 is given, so no underscores
    and no prefix), and a value that fits in 64 bits. *)
Definition ParseInt (s : string) : option Z :=
  match s with
  | EmptyString => None
  | String c s' =>
      let neg := Ascii.eqb c "-"%char in
      let body := if Ascii.eqb c "-"%char || Ascii.eqb c "+"%char then s' else s in
      match body with
      | EmptyString => None
      | _ =>
          n ← digits_val 0 body;
          let v := if neg then - n else n in
          if in_int64 v then Some v else None
      end
  end.

(** [strconv.Atoi(s)] on a 64-bit platform: [ParseInt(s, 10, 0)] as an
    [int]. *)
Definition Atoi (s : string) : option Z := ParseInt s.

End strconv.
Import strconv.

(** ** The data of package neobench *)

Definition error : Type := option string.

Inductive EncryptionMode := EncryptionAuto | EncryptionOn | EncryptionOff.

(** The dynamic types a workload variable ([interface{}]) can hold. *)
Inductive value :=
  | VInt (n : Z)
  | VFloat (f : float64)
  | VString (s : string).

(** Modelled from the spec: hdrhistogram.Histogram and its Merge, Export
    and Import are not part of main.go.  Following the spec's data model
    ("merge(other) - associative and commutative, producing a histogram
    whose percentile queries equal those of the union of all recorded
    samples; export/import for copy-construction") a histogram is the
    multiset of the samples recorded into it, each already rounded to the
    value of its bucket. *)
Definition Histogram : Type := gmultiset Z.

Definition Histogram_Merge (h from : Histogram) : Histogram := h ⊎ from.

Definition Histogram_Export (h : Histogram) : Histogram := h.

(** The sample at percentile [q] (0..100) of the recorded samples in
    ascending order; 0 for an empty histogram. *)
Definition ValueAtQuantile (q : Z) (h : Histogram) : Z :=
  let sorted := merge_sort Z.le (elements h) in
  let rank := (q * Z.of_nat (length sorted) + 99) / 100 in
  default 0 (sorted !! Z.to_nat (rank - 1)).

(** A [*hdrhistogram.Histogram] is a location of the store of histogram
    objects; a location the store does not hold is a nil pointer. *)
Abbreviation loc := positive.
Abbreviation store := (gmap loc Histogram).

Module FailureGroup.
(** Modelled from the spec: the struct is declared in pkg/neobench.  The
    spec gives it "a monotonically increasing Count and the timestamp of
    the FirstFailure observed for that key". *)
Record t := Build { Count : Z; FirstFailure : Z }.
End FailureGroup.

Module WorkerResult.
(** Modelled from the spec: the struct is declared in pkg/neobench.
    "succeeded count, failed count, achieved rate, the worker's
    Histogram, its FailureGroup map, and an optional fatal Error". *)
Record t := Build {
  Rate : float64;
  Succeeded : Z;
  Failed : Z;
  Latencies : loc;
  FailedByErrorGroup : gmap string FailureGroup.t;
  Error : error }.
End WorkerResult.

Module Result.
Record t := Build {
  Scenario : string;
  TotalRate : float64;
  TotalSucceeded : Z;
  TotalFailed : Z;
  TotalLatencies : option loc;
  FailedByErrorGroup : gmap string FailureGroup.t;
  Workers : list WorkerResult.t }.

(** [neobench.Result{}] *)
Definition zero : t :=
  Build "" (S754_zero false) 0 0 None ∅ [].
End Result.

(** What one worker's [RunBenchmark] produced; [Samples] is the content
    of the histogram it recorded into. *)
Record WorkerRun := {
  run_Rate : float64;
  run_Succeeded : Z;
  run_Failed : Z;
  run_Samples : Histogram;
  run_FailedByErrorGroup : gmap string FailureGroup.t;
  run_Error : error }.

(** A parsed script, as far as main.go sees it: the name, text and weight
    handed to [neobench.Parse]. *)
Record Script := { ScriptName : string; ScriptText : string; ScriptWeight : Z }.

(** [neobench.Workload], without its random source. *)
Record Workload := { Variables : gmap string value; Scripts : list Script }.

(** ** Effects

    What the program does to the world outside, in order; together with
    the store of histograms this is the state main.go runs in. *)
Inductive event :=
  | EvNewOutput (format : string)
  | EvNewDriver (address user password : string) (mode : EncryptionMode)
  | EvReadFile (path : string)
  | EvParse (name content : string) (weight : Z)
  | EvInitTPCBLike (scale : Z)
  | EvSetupSignalHandler
  | EvWorkerStart (workerId : Z) (pace : Duration)
  | EvReportProgress (section step : string)
  | EvAwaitCompletion (runtime : Duration)
  | EvStop
  | EvErrorf (msg : string)
  | EvReportLatency (r : Result.t)
  | EvReportThroughput (r : Result.t)
  | EvLogFatal (msg : string).

(** How a run ends early: [os.Exit], a run-time panic, or a receive
    that never completes. *)
Inductive stop :=
  | Exit (code : Z)
  | Panic (msg : string)
  | Blocked.

Inductive step (A : Type) :=
  | Done (a : A)
  | Halt (s : stop).
Arguments Done {A} a.
Arguments Halt {A} s.

Definition M (A : Type) : Type := store -> list event * store * step A.

Definition ret {A} (a : A) : M A := fun σ => ([], σ, Done a).

Definition bind {A B} (m : M A) (f : A -> M B) : M B :=
  fun σ =>
    match m σ with
    | (t1, σ1, Halt s) => (t1, σ1, Halt s)
    | (t1, σ1, Done a) =>
        match f a σ1 with
        | (t2, σ2, r) => (t1 ++ t2, σ2, r)
        end
    end.

Notation "'let*' x ':=' m 'in' k" := (bind m (fun x => k))
  (at level 10, x pattern, m at level 100, k at level 200).
Notation "m ';;' k" := (bind m (fun _ => k))
  (at level 100, k at level 200, right associativity).

Definition emit (e : event) : M unit := fun σ => ([e], σ, Done tt).

Definition halt {A} (s : stop) : M A := fun σ => ([], σ, Halt s).

Fixpoint foldM {A B} (f : B -> A -> M B) (b : B) (l : list A) : M B :=
  match l with
  | [] => ret b
  | a :: l' => let* b' := f b a in foldM f b' l'
  end.

Definition events {A} (r : list event * store * step A) : list event := r.1.1.
Definition final {A} (r : list event * store * step A) : store := r.1.2.
Definition outcome {A} (r : list event * store * step A) : step A := r.2.

(** [log.Fatal], [log.Fatalf]: print, then [os.Exit(1)]. *)
Definition log_Fatal {A} (msg : string) : M A :=
  emit (EvLogFatal msg) ;; halt (Exit 1).

(** Dereferencing a histogram pointer. *)
Definition load (l : loc) : M Histogram :=
  fun σ =>
    match σ !! l with
    | Some h => ([], σ, Done h)
    | None => ([], σ, Halt (Panic "invalid memory address or nil pointer dereference"))
    end.

(** Modelled from the spec: [hdrhistogram.Import(s)], copy-construction
    of a new histogram object holding [s]. *)
Definition Import (s : Histogram) : M loc :=
  fun σ => let l := fresh (dom σ) in ([], <[l := s]> σ, Done l).

(** Modelled from the spec: [h.Export()], a snapshot of the samples. *)
Definition Export (h : loc) : M Histogram :=
  let* c := load h in ret (Histogram_Export c).

(** Modelled from the spec: [h.Merge(from)], the samples of [from] are
    recorded into [h]. *)
Definition Merge (h from : loc) : M unit :=
  let* hc := load h in
  let* fc := load from in
  fun σ => ([], <[h := Histogram_Merge hc fc]> σ, Done tt).

(** ** What main.go calls but does not define

    The functions of pkg/neobench, of the operating system and of the Go
    library that main.go relies on, each with the result it gives. An
    [error] of [None] is Go's [nil]; in a sum the left side is the error
    text. *)
Record externals := Externals {
  (** [int64(x)] for a [float64] that does not fit an [int64], as the
      implementation at hand converts it *)
  int64_unrepresentable : float64 -> Z;
  (** [strings.Map(unicode.ToLower, s)] for [s] with a non-ASCII byte *)
  unicodeLower : string -> string;
  (** [strconv.ParseFloat(s, 64)] *)
  ParseFloat : string -> string + float64;
  (** [fmt]'s [%d] and [%f] *)
  Sprintf_d : Z -> string;
  Sprintf_f : float64 -> string;
  NewOutput : string -> error;
  NewDriver : string -> string -> string -> EncryptionMode -> error;
  (** [ioutil.ReadFile] *)
  ReadFile : string -> string + string;
  (** the text of the built-in workload, [neobench.TPCBLike] *)
  TPCBLike : string;
  (** the verdict of [neobench.Parse(name, content, weight)] *)
  Parse : string -> string -> Z -> error;
  InitTPCBLike : Z -> error;
  (** what worker [i], paced at the given interval, returns from
      [worker.RunBenchmark] *)
  RunBenchmark : Z -> Duration -> WorkerRun;
  (** the order in which the workers of a pool of the given size send
      their results *)
  arrival : Z -> list Z }.

(** The flags, as [pflag.Parse] left them. *)
Record flags := Flags {
  fInitMode : bool;
  fLatencyMode : bool;
  fScale : Z;
  fClients : Z;
  fRate : float64;
  fAddress : string;
  fUser : string;
  fPassword : string;
  fEncryptionMode : string;
  fDuration : Z;
  (** [map[string]string], in the order [range] visits it *)
  fVariables : list (string * string);
  fWorkloads : list string;
  fOutputFormat : string }.

Definition builtin_tpcb_like : string := "builtin:tpcb-like".

Definition elem_str (s : string) (l : list string) : bool :=
  existsb (String.eqb s) l.

Section MainGo.

Context (X : externals).

(** *** collectResults (main.go 225-273) *)

(** Lines 227-230: a slice of capacity [concurrency] is made, and
    [concurrency] results are taken off the channel; the receive blocks
    when the channel holds fewer. *)
Definition receive (concurrency : Z) (resultChan : list WorkerResult.t)
    : M (list WorkerResult.t) :=
  let n := Z.to_nat concurrency in
  if concurrency <? 0 then halt (Panic "makeslice: cap out of range")
  else if (n <=? length resultChan)%nat then ret (take n resultChan)
  else halt Blocked.

(** The body of [for name, group := range res.FailedByErrorGroup]. *)
Definition mergeGroup (total : gmap string FailureGroup.t)
    (entry : string * FailureGroup.t) : gmap string FailureGroup.t :=
  let '(name, group) := entry in
  match total !! name with
  | Some existing =>
      <[name := FailureGroup.Build
                  (FailureGroup.Count existing + FailureGroup.Count group)
                  (FailureGroup.FirstFailure existing)]> total
  | None => <[name := group]> total
  end.

(** Lines 250-263: one worker's numbers added to the aggregate. *)
Definition addWorker (total : Result.t) (res : WorkerResult.t) : Result.t :=
  Result.Build
    (Result.Scenario total)
    (f64_add (Result.TotalRate total) (WorkerResult.Rate res))
    (Result.TotalSucceeded total + WorkerResult.Succeeded res)
    (Result.TotalFailed total + WorkerResult.Failed res)
    (Result.TotalLatencies total)
    (foldl mergeGroup (Result.FailedByErrorGroup total)
       (map_to_list (WorkerResult.FailedByErrorGroup res)))
    (Result.Workers total).

(** The body of [for _, res := range results]. *)
Definition collectOne (acc : option loc * Result.t) (res : WorkerResult.t)
    : M (option loc * Result.t) :=
  let '(combinedHistogram, total) := acc in
  match WorkerResult.Error res with
  | Some e => emit (EvErrorf ("Worker failed: " +:+ e)) ;; ret acc
  | None =>
      let* combinedHistogram :=
        match combinedHistogram with
        | None =>
            let* snapshot := Export (WorkerResult.Latencies res) in
            let* h := Import snapshot in
            ret (Some h)
        | Some h => Merge h (WorkerResult.Latencies res) ;; ret (Some h)
        end in
      ret (combinedHistogram, addWorker total res)
  end.

Definition collectResults (scenario : string) (concurrency : Z)
    (resultChan : list WorkerResult.t) : M (Result.t * error) :=
  let* results := receive concurrency resultChan in
  let total := Result.Build scenario (S754_zero false) 0 0 None ∅ results in
  let* (combinedHistogram, total) := foldM collectOne (None, total) results in
  match combinedHistogram with
  | None => ret (Result.zero, Some "all workers failed")
  | Some h =>
      ret (Result.Build (Result.Scenario total) (Result.TotalRate total)
             (Result.TotalSucceeded total) (Result.TotalFailed total)
             (Some h) (Result.FailedByErrorGroup total) (Result.Workers total),
           None)
  end.

(** *** runBenchmark (main.go 178-223) *)

Definition int64_of_float64 (x : float64) : Z :=
  match f64_to_int64 x with
  | Some v => v
  | None => wrap64 (int64_unrepresentable X x)
  end.

(** Lines 183-187: [ratePerWorkerDuration := time.Duration(0)], replaced
    in latency mode by
    [time.Duration(1000*1000/ratePerWorkerPerSecond) * time.Microsecond]
    with [ratePerWorkerPerSecond := rate / float64(numClients)]. *)
Definition ratePerWorkerDuration (latencyMode : bool) (numClients : Z)
    (rate : float64) : Duration :=
  if latencyMode then
    let ratePerWorkerPerSecond := f64_div rate (f64_of_int numClients) in
    wrap64 (int64_of_float64 (f64_div (f64_of_int (1000 * 1000)) ratePerWorkerPerSecond)
            * Microsecond)
  else 0.

(** A worker's goroutine once it has run: the result it sends on the
    channel (its histogram a fresh object of the store), and what it does
    when the result carries an error. *)
Definition workerDone (pace : Duration) (workerId : Z) : M WorkerResult.t :=
  let run := RunBenchmark X workerId pace in
  let* h := Import (run_Samples run) in
  let result :=
    WorkerResult.Build (run_Rate run) (run_Succeeded run) (run_Failed run) h
      (run_FailedByErrorGroup run) (run_Error run) in
  match WorkerResult.Error result with
  | Some e =>
      emit (EvErrorf ("worker " +:+ Sprintf_d X workerId +:+ " crashed: " +:+ e)) ;;
      emit EvStop ;;
      ret result
  | None => ret result
  end.

Definition forM {A B} (f : A -> M B) (l : list A) : M (list B) :=
  foldM (fun acc a => let* b := f a in ret (acc ++ [b])) [] l.

(** [defer stop()] (line 181): [stop] is called when the rest of the
    function returns and when it panics, while the panic unwinds; it is
    not called when the goroutine stays blocked (or the program
    exits). *)
Definition defer_stop {A} (rest : M A) : M A :=
  fun σ =>
    match rest σ with
    | (t, σ1, Done a) => (t ++ [EvStop], σ1, Done a)
    | (t, σ1, Halt (Panic msg)) => (t ++ [EvStop], σ1, Halt (Panic msg))
    | (t, σ1, Halt s) => (t, σ1, Halt s)
    end.

Definition runBenchmark (scenario : string) (wrk : Workload) (runtime : Duration)
    (latencyMode : bool) (numClients : Z) (rate : float64) : M (Result.t * error) :=
  emit EvSetupSignalHandler ;;
  defer_stop
    (let pace := ratePerWorkerDuration latencyMode numClients rate in
     (if numClients <? 0 then halt (Panic "makechan: size out of range") else ret tt) ;;
     forM (fun i => emit (EvWorkerStart i pace)) (seqZ 0 numClients) ;;
     emit (EvReportProgress "benchmark" "run") ;;
     emit (EvAwaitCompletion runtime) ;;
     emit EvStop ;;
     emit (EvReportProgress "benchmark" "stopping") ;;
     (* wg.Wait(): every goroutine has sent its result *)
     let* resultChan := forM (workerDone pace) (arrival X numClients) in
     collectResults scenario numClients resultChan).

(** *** initWorkload (main.go 275-282) *)

Fixpoint initWorkload (paths : list string) (scale : Z) : M error :=
  match paths with
  | [] => ret None
  | path :: paths' =>
      if String.eqb path builtin_tpcb_like
      then emit (EvInitTPCBLike scale) ;; ret (InitTPCBLike X scale)
      else initWorkload paths' scale
  end.

(** *** createScript (main.go 284-295) *)

Definition neobench_Parse (name content : string) (weight : Z) : M (string + Script) :=
  emit (EvParse name content weight) ;;
  ret match Parse X name content weight with
      | Some err => inl err
      | None => inr {| ScriptName := name; ScriptText := content; ScriptWeight := weight |}
      end.

Definition createScript (path : string) (weight : Z) : M (string + Script) :=
  if String.eqb path builtin_tpcb_like
  then neobench_Parse "builtin:tpcp-like" (TPCBLike X) weight
  else
    emit (EvReadFile path) ;;
    match ReadFile X path with
    | inl err => ret (inl ("failed to read workload file at " +:+ path +:+ ": " +:+ err))
    | inr scriptContent => neobench_Parse path scriptContent weight
    end.

(** *** main (main.go 50-158)

    [main] below is the function from the return of [pflag.Parse()]
    (line 66) on, run with the flags [F] that Parse left; Parse and its
    own ways of ending the program are in [main_with_Parse]. *)

Context (F : flags).

(** describeScenario (main.go 160-176) *)
Definition describeScenario : string :=
  let out := foldl (fun out path => out +:+ " -w " +:+ path) "" (fWorkloads F) in
  let out := out +:+ " -c " +:+ Sprintf_d X (fClients F) in
  let out := out +:+ " -s " +:+ Sprintf_d X (fScale F) in
  let out := out +:+ " -d " +:+ Sprintf_d X (fDuration F) in
  let out := out +:+ " -e " +:+ fEncryptionMode F in
  let out := if fLatencyMode F then out +:+ "-l -r " +:+ Sprintf_f X (fRate F) else out in
  if fInitMode F then out +:+ " -i" else out.

(** The switch on [strings.ToLower(fEncryptionMode)] (77-87); [None] is
    its default case. *)
Definition encryptionMode : option EncryptionMode :=
  let lowered := ToLower (unicodeLower X) (fEncryptionMode F) in
  if String.eqb lowered "auto" then Some EncryptionAuto
  else if elem_str lowered ["true"; "yes"; "y"; "1"] then Some EncryptionOn
  else if elem_str lowered ["false"; "no"; "n"; "0"] then Some EncryptionOff
  else None.

(** The body of [for k, v := range fVariables] (96-108); the left side
    is the message of [log.Fatalf]. *)
Definition define (variables : gmap string value) (kv : string * string)
    : string + gmap string value :=
  let '(k, v) := kv in
  match ParseInt v with
  | Some intVal => inr (<[k := VInt intVal]> variables)
  | None =>
      match ParseFloat X v with
      | inr floatVal => inr (<[k := VFloat floatVal]> variables)
      | inl err =>
          inl ("-D and --define values must be integers or floats, failing to parse '"
               +:+ v +:+ "': " +:+ err)
      end
  end.

Definition main_variables : M (gmap string value) :=
  foldM (fun variables kv =>
           match define variables kv with
           | inr variables' => ret variables'
           | inl msg => log_Fatal msg
           end)
        (<["scale" := VInt (fScale F)]> ∅) (fVariables F).

(** Lines 112-120: the path and the weight one [-w] value stands for;
    [None] when the text after the first [@] is not an integer. *)
Definition workloadArgs (path : string) : option (string * Z) :=
  match Split "@" path with
  | part0 :: part1 :: _ => weight ← Atoi part1; Some (part0, weight)
  | _ => Some (path, 1)
  end.

(** The body of [for _, path := range fWorkloads] (111-126). *)
Definition main_workload (path : string) : M Script :=
  match workloadArgs path with
  | None =>
      log_Fatal ("Failed to parse weight; value after @ symbol for workload weight must be an integer: "
                 +:+ path)
  | Some (path', weight) =>
      let* r := createScript path' (uint weight) in
      match r with
      | inl err => log_Fatal err
      | inr script => ret script
      end
  end.

Definition main_scripts : M (list Script) := forM main_workload (fWorkloads F).

(** Everything of [main] up to the construction of the workload
    (66-132). *)
Definition main_setup : M Workload :=
  emit (EvNewOutput (fOutputFormat F)) ;;
  match NewOutput X (fOutputFormat F) with
  | Some err => log_Fatal err
  | None => ret tt
  end ;;
  let* mode :=
    match encryptionMode with
    | Some mode => ret mode
    | None =>
        log_Fatal ("Invalid encryption mode '" +:+ fEncryptionMode F
                   +:+ "', needs to be one of 'auto', 'true' or 'false'")
    end in
  emit (EvNewDriver (fAddress F) (fUser F) (fPassword F) mode) ;;
  match NewDriver X (fAddress F) (fUser F) (fPassword F) mode with
  | Some err => log_Fatal err
  | None => ret tt
  end ;;
  let* variables := main_variables in
  let* scripts := main_scripts in
  ret {| Variables := variables; Scripts := scripts |}.

(** Lines 134-139. *)
Definition main_init : M unit :=
  if fInitMode F then
    let* err := initWorkload (fWorkloads F) (fScale F) in
    match err with
    | Some e => log_Fatal e
    | None => ret tt
    end
  else ret tt.

(** Lines 141-157. *)
Definition main_run (wrk : Workload) : M unit :=
  let runtime := wrap64 (fDuration F * Second) in
  let scenario := describeScenario in
  if fLatencyMode F then
    let* (result, err) :=
      runBenchmark scenario wrk runtime (fLatencyMode F) (fClients F) (fRate F) in
    match err with
    | Some e => emit (EvErrorf e) ;; halt (Exit 1)
    | None => emit (EvReportLatency result) ;; halt (Exit 0)
    end
  else
    let* (result, err) :=
      runBenchmark scenario wrk runtime (fLatencyMode F) (fClients F) (fRate F) in
    match err with
    | Some e => emit (EvErrorf e) ;; halt (Exit 1)
    | None => emit (EvReportThroughput result) ;; halt (Exit 0)
    end.

Definition main : M unit :=
  let* wrk := main_setup in
  main_init ;;
  main_run wrk.

End MainGo.

(** ** Reading a run *)

(** The workers that ended without a fatal error, in arrival order. *)
Definition nonfatal (results : list WorkerResult.t) : list WorkerResult.t :=
  filter (fun r => WorkerResult.Error r = None) results.

(** Every worker that ended without a fatal error carries a histogram
    (its [Latencies] is not nil). *)
Definition histograms_present (σ : store) (results : list WorkerResult.t) : Prop :=
  forall r, r ∈ results -> WorkerResult.Error r = None ->
    is_Some (σ !! WorkerResult.Latencies r).

Definition samples_of (σ : store) (r : WorkerResult.t) : Histogram :=
  default ∅ (σ !! WorkerResult.Latencies r).

(** The union of the samples of a list of workers. *)
Definition all_samples (σ : store) (results : list WorkerResult.t) : Histogram :=
  foldr (fun r acc => samples_of σ r ⊎ acc) ∅ results.

Definition sumZ (l : list Z) : Z := foldr Z.add 0 l.

(** The failure groups the workers hold for one key, in arrival order. *)
Definition groupsAt (k : string) (results : list WorkerResult.t) : list FailureGroup.t :=
  omap (fun r => WorkerResult.FailedByErrorGroup r !! k) results.

(** The earliest [FirstFailure] of a list of groups. *)
Definition earliest (groups : list FailureGroup.t) : option Z :=
  match groups with
  | [] => None
  | g :: gs => Some (foldl Z.min (FailureGroup.FirstFailure g) (FailureGroup.FirstFailure <$> gs))
  end.

Definition worker_starts (t : list event) : list (Z * Duration) :=
  omap (fun e => match e with EvWorkerStart i d => Some (i, d) | _ => None end) t.

Definition is_worker_start (e : event) : bool :=
  match e with EvWorkerStart _ _ => true | _ => false end.

Definition is_init (e : event) : bool :=
  match e with EvInitTPCBLike _ => true | _ => false end.

Definition is_new_driver (e : event) : bool :=
  match e with EvNewDriver _ _ _ _ => true | _ => false end.

(** A script file is read or a script text is parsed. *)
Definition is_script_event (e : event) : bool :=
  match e with EvReadFile _ | EvParse _ _ _ => true | _ => false end.

Definition none_of (p : event -> bool) (t : list event) : Prop :=
  Forall (fun e => p e = false) t.

(** What one more group for a key does to the entry the aggregate has
    for that key. *)
Definition mergeAt (acc : option FailureGroup.t) (g : FailureGroup.t)
    : option FailureGroup.t :=
  Some match acc with
       | Some existing =>
           FailureGroup.Build (FailureGroup.Count existing + FailureGroup.Count g)
             (FailureGroup.FirstFailure existing)
       | None => g
       end.

(** What [out.Errorf] receives in the loop over the results. *)
Definition fatal_events (results : list WorkerResult.t) : list event :=
  omap (fun r => (fun e => EvErrorf ("Worker failed: " +:+ e)) <$> WorkerResult.Error r)
       results.

(** The combined histogram the loop ends with, and the store it leaves:
    nothing when every worker is fatal, otherwise a new object holding
    the samples of all the workers without a fatal error. *)
Definition combined (σ : store) (results : list WorkerResult.t) : option loc :=
  match nonfatal results with
  | [] => None
  | _ :: _ => Some (fresh (dom σ))
  end.

Definition collected (σ : store) (results : list WorkerResult.t) : store :=
  match nonfatal results with
  | [] => σ
  | _ :: _ => <[fresh (dom σ) := all_samples σ (nonfatal results)]> σ
  end.

(** The aggregate [collectResults] returns when some worker has no fatal
    error. *)
Definition aggregate (scenario : string) (σ : store) (results : list WorkerResult.t)
    : Result.t :=
  let total :=
    foldl addWorker (Result.Build scenario (S754_zero false) 0 0 None ∅ results)
      (nonfatal results) in
  Result.Build (Result.Scenario total) (Result.TotalRate total)
    (Result.TotalSucceeded total) (Result.TotalFailed total)
    (combined σ results) (Result.FailedByErrorGroup total) (Result.Workers total).

(** The exact value of a finite float as a fraction. *)
Definition f64_fraction (x : float64) : option (Z * Z) :=
  match x with
  | S754_zero _ => Some (0, 1)
  | S754_finite s m e =>
      let n := if s then Z.neg m else Z.pos m in
      Some (if 0 <=? e then (n * 2 ^ e, 1) else (n, 2 ^ (- e)))
  | S754_infinity _ | S754_nan => None
  end.

(** The values of the encryption flag, in lower case. *)
Definition encryption_on : list string := ["true"; "yes"; "y"; "1"].
Definition encryption_off : list string := ["false"; "no"; "n"; "0"].
Definition encryption_words : list string := "auto" :: encryption_on ++ encryption_off.

(** What a [-D] value is stored as: an integer when [ParseInt] accepts
    it, else a float when [ParseFloat] accepts it, else nothing. *)
Definition defineValue (X : externals) (v : string) : option value :=
  match ParseInt v with
  | Some intVal => Some (VInt intVal)
  | None =>
      match ParseFloat X v with
      | inr floatVal => Some (VFloat floatVal)
      | inl _ => None
      end
  end.

Definition is_number (x : value) : Prop :=
  (exists n, x = VInt n) \/ (exists f, x = VFloat f).

(** The loop over the defines, from any map of variables. *)
Definition defineAll (X : externals) (variables : gmap string value)
    (l : list (string * string)) : M (gmap string value) :=
  foldM (fun variables kv =>
           match define X variables kv with
           | inr variables' => ret variables'
           | inl msg => log_Fatal msg
           end) variables l.

(** The variables once every define is stored. *)
Definition storeDefines (X : externals) (variables : gmap string value)
    (l : list (string * string)) : gmap string value :=
  foldl (fun m kv => match defineValue X kv.2 with
                     | Some x => <[kv.1 := x]> m
                     | None => m
                     end) variables l.

(** [m] emits no event of the kind [p], from whichever store it runs. *)
Definition silent {A} (p : event -> bool) (m : M A) : Prop :=
  forall σ, none_of p (events (m σ)).

(** Whenever [m] ends the program it does so with exit status 1. *)
Definition exits1 {A} (m : M A) : Prop :=
  forall σ s, outcome (m σ) = Halt s -> s = Exit 1.

(** [m] always ends the program, with exit status 1, and emits no event
    of the kind [p] before. *)
Definition aborts {A} (p : event -> bool) (m : M A) : Prop :=
  forall σ, outcome (m σ) = Halt (Exit 1) /\ none_of p (events (m σ)).

(** ** A sample environment

    One concrete choice of the external functions, for running the model
    on examples: a file system holding one script, a parser and a driver
    that accept everything, workers that each record one sample, and
    results that arrive in the order of the worker ids. *)

Definition three_halves : float64 := f64_div (f64_of_int 3) (f64_of_int 2).

(** Agrees with [strconv.ParseFloat] on ["1.5"]; rejects the other
    strings the examples use (["abc"]). *)
Definition ParseFloat_sample (s : string) : string + float64 :=
  if String.eqb s "1.5" then inr three_halves
  else inl ("strconv.ParseFloat: parsing " +:+ s +:+ ": invalid syntax").

Definition ReadFile_sample (path : string) : string + string :=
  if String.eqb path "my.script" then inr "RETURN 1;"
  else inl ("open " +:+ path +:+ ": no such file or directory").

Definition RunBenchmark_sample (workerId : Z) (pace : Duration) : WorkerRun :=
  {| run_Rate := f64_of_int 1; run_Succeeded := 1; run_Failed := 0;
     run_Samples := {[+ 100 + workerId +]}; run_FailedByErrorGroup := ∅;
     run_Error := None |}.

Definition sampleX : externals :=
  {| int64_unrepresentable := fun _ => - 2 ^ 63;
     unicodeLower := fun s => s;
     ParseFloat := ParseFloat_sample;
     Sprintf_d := pretty;
     Sprintf_f := fun _ => "%f";
     NewOutput := fun _ => None;
     NewDriver := fun _ _ _ _ => None;
     ReadFile := ReadFile_sample;
     TPCBLike := ":set aid random(1, 100000 * $scale)";
     Parse := fun _ _ _ => None;
     InitTPCBLike := fun _ => None;
     RunBenchmark := RunBenchmark_sample;
     arrival := fun n => seqZ 0 n |}.

(** The defaults of the flags (main.go 35-47), with two clients. *)
Definition sampleF : flags :=
  {| fInitMode := false; fLatencyMode := false; fScale := 1; fClients := 2;
     fRate := f64_of_int 1; fAddress := "neo4j://localhost:7687";
     fUser := "neo4j"; fPassword := "neo4j"; fEncryptionMode := "auto";
     fDuration := 60; fVariables := []; fWorkloads := [builtin_tpcb_like];
     fOutputFormat := "auto" |}.

(** The sample flags with other defines. *)
Definition sampleF_defines (defines : list (string * string)) : flags :=
  {| fInitMode := fInitMode sampleF; fLatencyMode := fLatencyMode sampleF;
     fScale := fScale sampleF; fClients := fClients sampleF; fRate := fRate sampleF;
     fAddress := fAddress sampleF; fUser := fUser sampleF;
     fPassword := fPassword sampleF; fEncryptionMode := fEncryptionMode sampleF;
     fDuration := fDuration sampleF; fVariables := defines;
     fWorkloads := fWorkloads sampleF; fOutputFormat := fOutputFormat sampleF |}.

(** The sample flags with another mode and other workloads. *)
Definition sampleF_run (initMode : bool) (workloads : list string) : flags :=
  {| fInitMode := initMode; fLatencyMode := fLatencyMode sampleF;
     fScale := fScale sampleF; fClients := fClients sampleF; fRate := fRate sampleF;
     fAddress := fAddress sampleF; fUser := fUser sampleF;
     fPassword := fPassword sampleF; fEncryptionMode := fEncryptionMode sampleF;
     fDuration := fDuration sampleF; fVariables := fVariables sampleF;
     fWorkloads := workloads; fOutputFormat := fOutputFormat sampleF |}.

(** The sample flags with another value of the encryption flag. *)
Definition sampleF_encryption (mode : string) : flags :=
  {| fInitMode := fInitMode sampleF; fLatencyMode := fLatencyMode sampleF;
     fScale := fScale sampleF; fClients := fClients sampleF; fRate := fRate sampleF;
     fAddress := fAddress sampleF; fUser := fUser sampleF;
     fPassword := fPassword sampleF; fEncryptionMode := mode;
     fDuration := fDuration sampleF; fVariables := fVariables sampleF;
     fWorkloads := fWorkloads sampleF; fOutputFormat := fOutputFormat sampleF |}.

(** *** Sample results

    Two workers that ended normally, each with two failures of the same
    signature first seen at different times, and between them a worker
    with a fatal error. *)

Definition worker_ok (h : loc) (rate succeeded firstFailure : Z) : WorkerResult.t :=
  WorkerResult.Build (f64_of_int rate) succeeded 2 h
    {["boom" := FailureGroup.Build 2 firstFailure]} None.

Definition worker_fatal : WorkerResult.t :=
  WorkerResult.Build (f64_of_int 0) 0 0 3 ∅ (Some "connection refused").

Definition sample_results : list WorkerResult.t :=
  [worker_ok 1 5 40 10; worker_fatal; worker_ok 2 7 60 5].

Definition sample_store : store :=
  {[ 1%positive := {[+ 100; 250 +]}; 2%positive := {[+ 100; 300 +]}; 3%positive := ∅ ]}.


(** The failures a map of failure groups counts, over all its keys. *)
Definition countAll (groups : gmap string FailureGroup.t) : Z :=
  map_fold (fun _ g acc => FailureGroup.Count g + acc) 0 groups.


(** The result worker [workerId] sends when its histogram is the object
    [h]. *)
Definition resultOf (X : externals) (pace : Duration) (workerId : Z) (h : loc)
    : WorkerResult.t :=
  let run := RunBenchmark X workerId pace in
  WorkerResult.Build (run_Rate run) (run_Succeeded run) (run_Failed run) h
    (run_FailedByErrorGroup run) (run_Error run).

(** The results the workers send, in the order of [ids], and the store
    once each has its histogram. *)
Fixpoint deliverAll (X : externals) (pace : Duration) (ids : list Z) (σ : store)
    : list WorkerResult.t * store :=
  match ids with
  | [] => ([], σ)
  | i :: ids' =>
      let h := fresh (dom σ) in
      let rest := deliverAll X pace ids' (<[h := run_Samples (RunBenchmark X i pace)]> σ) in
      (resultOf X pace i h :: rest.1, rest.2)
  end.

(** What the goroutines of crashed workers log and signal. *)
Definition crash_events (X : externals) (pace : Duration) (ids : list Z) : list event :=
  flat_map (fun i => match run_Error (RunBenchmark X i pace) with
                     | Some e =>
                         [EvErrorf ("worker " +:+ Sprintf_d X i +:+ " crashed: " +:+ e);
                          EvStop]
                     | None => []
                     end) ids.

(** The union of the samples of a list of runs. *)
Definition unionSamples (runs : list WorkerRun) : Histogram :=
  foldr (fun r acc => run_Samples r ⊎ acc) ∅ runs.

(** The runs that ended without a fatal error. *)
Definition okRuns (runs : list WorkerRun) : list WorkerRun :=
  filter (fun r => run_Error r = None) runs.

(** Each result has its worker's numbers, and its histogram is in the
    store with the worker's samples. *)
Definition delivered (X : externals) (pace : Duration) (σ : store) (i : Z)
    (r : WorkerResult.t) : Prop :=
  r = resultOf X pace i (WorkerResult.Latencies r)
  /\ σ !! WorkerResult.Latencies r = Some (run_Samples (RunBenchmark X i pace)).

(** The result is handed to the report renderer. *)
Definition is_report (e : event) : bool :=
  match e with EvReportLatency _ | EvReportThroughput _ => true | _ => false end.

(** [m] never ends the program through [os.Exit]. *)
Definition noexit {A} (m : M A) : Prop :=
  forall σ code, outcome (m σ) <> Halt (Exit code).


(** The report [main] makes of a result: latencies in latency mode,
    throughput otherwise. *)
Definition reportOf (F : flags) (result : Result.t) : event :=
  if fLatencyMode F then EvReportLatency result else EvReportThroughput result.

(** The ways a run ends without a report. *)
Definition fails (s : stop) : Prop :=
  s = Exit 1 \/ s = Blocked \/ exists msg, s = Panic msg.


(** The script [main] makes of one [-w] value: the weight is what
    follows the first [@], converted to a [uint]; the built-in workload
    is parsed from its own text under the name the code gives it, any
    other from the content of its file under its path; and the parser
    accepts it. *)
Definition scriptFor (X : externals) (path : string) (script : Script) : Prop :=
  exists p n,
    workloadArgs path = Some (p, n)
    /\ ScriptWeight script = uint n
    /\ (if String.eqb p builtin_tpcb_like
        then ScriptName script = "builtin:tpcp-like" /\ ScriptText script = TPCBLike X
        else ScriptName script = p /\ ReadFile X p = inr (ScriptText script))
    /\ Parse X (ScriptName script) (ScriptText script) (uint n) = None.


(** ** awaitCompletion (main.go 297-319)

    The loop looks at the stop channel and at the clock once per turn.
    What it finds there is given as the list of its observations, one per
    turn; the function is run for as long as there are observations. *)

(** A reading of the monotonic clock, in nanoseconds. *)
Definition Time : Type := Z.

(** [t.Sub(u)]: the difference as a [Duration], the largest or the
    smallest [Duration] when it does not fit. *)
Definition Time_Sub (t u : Time) : Duration :=
  Z.max (- 2 ^ 63) (Z.min (2 ^ 63 - 1) (t - u)).

Definition f64_sub (x y : float64) : float64 := SFsub 53 1024 x y.

(** [d.Seconds()]: [float64(d / Second) + float64(d % Second) / 1e9]. *)
Definition Duration_Seconds (d : Duration) : float64 :=
  f64_add (f64_of_int (d ÷ Second)) (f64_div (f64_of_int (Z.rem d Second)) (f64_of_int (10 ^ 9))).

(** What one turn of the loop observes: whether a receive from [stopCh]
    can proceed at the [select], and what [time.Now()] returns after
    it. *)
Record poll := { stopped : bool; now : Time }.

Inductive awaitEvent :=
  | AwReportProgress (section step : string) (completeness : float64)
  | AwSleep (d : Duration).

(** [1 - delta.Seconds()/originalDelta] (line 315). *)
Definition Completeness (originalDelta : float64) (delta : Duration) : float64 :=
  f64_sub (f64_of_int 1) (f64_div (Duration_Seconds delta) originalDelta).

(** The [for] loop (299-318): what it does, and whether it has ended
    within the observations given. *)
Fixpoint awaitLoop (deadline : Time) (originalDelta : float64) (polls : list poll)
    : list awaitEvent * bool :=
  match polls with
  | [] => ([], false)
  | p :: polls' =>
      if stopped p then ([], true)
      else
        let delta := Time_Sub deadline (now p) in
        if delta <? 2 * Second then ([AwSleep delta], true)
        else
          let rest := awaitLoop deadline originalDelta polls' in
          (AwReportProgress "benchmark" "run" (Completeness originalDelta delta)
             :: AwSleep (Millisecond * 100) :: rest.1,
           rest.2)
  end.

(** [start] is the clock reading of line 298. *)
Definition awaitCompletion (deadline start : Time) (polls : list poll)
    : list awaitEvent * bool :=
  let originalDelta := Duration_Seconds (Time_Sub deadline start) in
  awaitLoop deadline originalDelta polls.

(** [time.Sleep] pauses for at least the duration asked for: between two
    turns of the loop the clock advances by 100 ms or more. *)
Fixpoint advancing (polls : list poll) : Prop :=
  match polls with
  | p :: (q :: _) as rest => now p + Millisecond * 100 <= now q /\ advancing rest
  | _ => True
  end.

Definition is_progress (e : awaitEvent) : bool :=
  match e with AwReportProgress _ _ _ => true | AwSleep _ => false end.

(** What a turn of the loop does while two seconds or more are left. *)
Definition reportAndSleep (deadline : Time) (originalDelta : float64) (p : poll)
    : list awaitEvent :=
  [AwReportProgress "benchmark" "run"
     (Completeness originalDelta (Time_Sub deadline (now p)));
   AwSleep (Millisecond * 100)].

(** Three polls 100 ms apart, none of which sees a stop. *)
Definition sample_polls : list poll :=
  [{| stopped := false; now := 0 |};
   {| stopped := false; now := 100 * Millisecond |};
   {| stopped := false; now := 200 * Millisecond |}].


(** An environment in which the driver cannot be created. *)
Definition sampleX_no_driver : externals :=
  {| int64_unrepresentable := int64_unrepresentable sampleX;
     unicodeLower := unicodeLower sampleX;
     ParseFloat := ParseFloat sampleX;
     Sprintf_d := Sprintf_d sampleX;
     Sprintf_f := Sprintf_f sampleX;
     NewOutput := NewOutput sampleX;
     NewDriver := fun _ _ _ _ => Some "connection refused";
     ReadFile := ReadFile sampleX;
     TPCBLike := TPCBLike sampleX;
     Parse := Parse sampleX;
     InitTPCBLike := InitTPCBLike sampleX;
     RunBenchmark := RunBenchmark sampleX;
     arrival := arrival sampleX |}.


(** ** pflag.Parse (main.go 66)

    [pflag.Parse()] parses the command line with the [ExitOnError]
    handling of pflag's command line: it returns, leaving the flags, or
    it ends the program itself with an exit status of its own, on invalid
    usage and on a request for help. *)
Inductive parsed :=
  | Parsed (F : flags)
  | ParseExit (code : Z).

(** [main] as a whole (50-158): [pflag.Parse()] and, when it returns,
    the rest of [main] with the flags it left. *)
Definition main_with_Parse (X : externals) (p : parsed) : M unit :=
  match p with
  | Parsed F => main X F
  | ParseExit code => halt (Exit code)
  end.

(** * Proofs *)

(** ** Running the monad *)

Lemma bind_Done {A B} (m : M A) (f : A -> M B) σ t1 σ1 a t2 σ2 r :
  m σ = (t1, σ1, Done a) -> f a σ1 = (t2, σ2, r) ->
  bind m f σ = (t1 ++ t2, σ2, r).
Proof. intros Hm Hf. unfold bind. rewrite Hm, Hf. reflexivity. Qed.

(** ** collectResults: the numbers *)

Lemma sumZ_cons x l : sumZ (x :: l) = x + sumZ l.
Proof. reflexivity. Qed.

Lemma addWorker_fold_Succeeded rs total :
  Result.TotalSucceeded (foldl addWorker total rs)
  = Result.TotalSucceeded total + sumZ (WorkerResult.Succeeded <$> rs).
Proof.
  revert total. induction rs as [|r rs IH]; intros total.
  - cbn. lia.
  - cbn [foldl]. rewrite IH, fmap_cons, sumZ_cons. cbn. lia.
Qed.

Lemma addWorker_fold_Failed rs total :
  Result.TotalFailed (foldl addWorker total rs)
  = Result.TotalFailed total + sumZ (WorkerResult.Failed <$> rs).
Proof.
  revert total. induction rs as [|r rs IH]; intros total.
  - cbn. lia.
  - cbn [foldl]. rewrite IH, fmap_cons, sumZ_cons. cbn. lia.
Qed.

Lemma addWorker_fold_Rate rs total :
  Result.TotalRate (foldl addWorker total rs)
  = foldl f64_add (Result.TotalRate total) (WorkerResult.Rate <$> rs).
Proof.
  revert total. induction rs as [|r rs IH]; intros total; simpl; [done|].
  by rewrite IH.
Qed.

Lemma addWorker_fold_frame rs total :
  Result.Scenario (foldl addWorker total rs) = Result.Scenario total
  /\ Result.TotalLatencies (foldl addWorker total rs) = Result.TotalLatencies total
  /\ Result.Workers (foldl addWorker total rs) = Result.Workers total.
Proof.
  revert total. induction rs as [|r rs IH]; intros total; simpl; [done|].
  destruct (IH (addWorker total r)) as (-> & -> & ->). done.
Qed.

(** ** collectResults: the failure groups *)

Lemma mergeGroup_lookup total name group k :
  mergeGroup total (name, group) !! k
  = if decide (name = k) then mergeAt (total !! k) group else total !! k.
Proof.
  unfold mergeGroup, mergeAt. case_decide as Hk.
  - subst k. destruct (total !! name); by rewrite lookup_insert_eq.
  - destruct (total !! name); by rewrite lookup_insert_ne.
Qed.

Lemma foldl_mergeGroup_lookup (l : list (string * FailureGroup.t)) total k :
  NoDup l.*1 ->
  foldl mergeGroup total l !! k
  = match (list_to_map l : gmap string FailureGroup.t) !! k with
    | Some g => mergeAt (total !! k) g
    | None => total !! k
    end.
Proof.
  revert total. induction l as [|[n g] l IH]; intros total Hnd.
  - cbn. by rewrite lookup_empty.
  - rewrite fmap_cons in Hnd. cbn [fst] in Hnd.
    apply NoDup_cons in Hnd as [Hn Hnd]. cbn [foldl].
    rewrite (IH _ Hnd), mergeGroup_lookup, list_to_map_cons.
    case_decide as Hk.
    + subst k. rewrite lookup_insert_eq.
      by rewrite (not_elem_of_list_to_map_1 _ _ Hn).
    + by rewrite lookup_insert_ne.
Qed.

Lemma addWorker_lookup total r k :
  Result.FailedByErrorGroup (addWorker total r) !! k
  = match WorkerResult.FailedByErrorGroup r !! k with
    | Some g => mergeAt (Result.FailedByErrorGroup total !! k) g
    | None => Result.FailedByErrorGroup total !! k
    end.
Proof.
  simpl. rewrite foldl_mergeGroup_lookup by apply NoDup_fst_map_to_list.
  by rewrite list_to_map_to_list.
Qed.

Lemma addWorker_fold_lookup rs total k :
  Result.FailedByErrorGroup (foldl addWorker total rs) !! k
  = foldl mergeAt (Result.FailedByErrorGroup total !! k) (groupsAt k rs).
Proof.
  revert total. induction rs as [|r rs IH]; intros total; [done|].
  cbn [foldl]. rewrite IH, addWorker_lookup. unfold groupsAt. cbn [omap list_omap].
  by destruct (WorkerResult.FailedByErrorGroup r !! k).
Qed.

Lemma foldl_mergeAt_Some gs e :
  foldl mergeAt (Some e) gs
  = Some (FailureGroup.Build
            (FailureGroup.Count e + sumZ (FailureGroup.Count <$> gs))
            (FailureGroup.FirstFailure e)).
Proof.
  revert e. induction gs as [|g gs IH]; intros [c f].
  - cbn. by rewrite Z.add_0_r.
  - cbn [foldl]. unfold mergeAt at 2. rewrite IH, fmap_cons, sumZ_cons. cbn.
    f_equal. f_equal. lia.
Qed.

(** ** collectResults: the histograms *)

Lemma Merge_run σ h from hc fc :
  σ !! h = Some hc -> σ !! from = Some fc ->
  Merge h from σ = ([], <[h := hc ⊎ fc]> σ, Done tt).
Proof.
  intros Hh Hf. unfold Merge, bind, load. rewrite Hh, Hf. reflexivity.
Qed.

Lemma collectOne_fatal acc r e σ :
  WorkerResult.Error r = Some e ->
  collectOne acc r σ = ([EvErrorf ("Worker failed: " +:+ e)], σ, Done acc).
Proof. intros He. destruct acc. unfold collectOne. rewrite He. reflexivity. Qed.

Lemma collectOne_merge h total r σ hc fc :
  WorkerResult.Error r = None ->
  σ !! h = Some hc -> σ !! WorkerResult.Latencies r = Some fc ->
  collectOne (Some h, total) r σ
  = ([], <[h := hc ⊎ fc]> σ, Done (Some h, addWorker total r)).
Proof.
  intros He Hh Hf. unfold collectOne. rewrite He.
  unfold bind at 1. unfold bind at 1. rewrite (Merge_run _ _ _ _ _ Hh Hf).
  reflexivity.
Qed.

Lemma collectOne_first total r σ fc :
  WorkerResult.Error r = None ->
  σ !! WorkerResult.Latencies r = Some fc ->
  collectOne (None, total) r σ
  = ([], <[fresh (dom σ) := fc]> σ, Done (Some (fresh (dom σ)), addWorker total r)).
Proof.
  intros He Hf. unfold collectOne. rewrite He.
  unfold bind, Export, load, Import, ret, bind. rewrite Hf. reflexivity.
Qed.

Lemma nonfatal_cons_fatal r rs e :
  WorkerResult.Error r = Some e -> nonfatal (r :: rs) = nonfatal rs.
Proof. intros He. unfold nonfatal. rewrite filter_cons_False; [done|]. by rewrite He. Qed.

Lemma nonfatal_cons_ok r rs :
  WorkerResult.Error r = None -> nonfatal (r :: rs) = r :: nonfatal rs.
Proof. intros He. unfold nonfatal. by rewrite filter_cons_True. Qed.

Lemma elem_of_nonfatal r rs :
  r ∈ nonfatal rs <-> r ∈ rs /\ WorkerResult.Error r = None.
Proof. unfold nonfatal. rewrite list_elem_of_filter. tauto. Qed.

Lemma fatal_events_cons_fatal r rs e :
  WorkerResult.Error r = Some e ->
  fatal_events (r :: rs) = EvErrorf ("Worker failed: " +:+ e) :: fatal_events rs.
Proof. intros He. unfold fatal_events. cbn [omap list_omap]. by rewrite He. Qed.

Lemma fatal_events_cons_ok r rs :
  WorkerResult.Error r = None -> fatal_events (r :: rs) = fatal_events rs.
Proof. intros He. unfold fatal_events. cbn [omap list_omap]. by rewrite He. Qed.

Lemma histograms_present_cons σ r rs :
  histograms_present σ (r :: rs) -> histograms_present σ rs.
Proof. intros H r' Hr'. apply H. by right. Qed.

Lemma histograms_present_insert σ l c rs :
  histograms_present σ rs -> histograms_present (<[l := c]> σ) rs.
Proof.
  intros H r Hr He. destruct (decide (l = WorkerResult.Latencies r)) as [->|Hne].
  - rewrite lookup_insert_eq. eauto.
  - rewrite lookup_insert_ne by done. by apply H.
Qed.

Lemma all_samples_insert σ h c rs :
  (forall r, r ∈ rs -> WorkerResult.Latencies r ≠ h) ->
  all_samples (<[h := c]> σ) rs = all_samples σ rs.
Proof.
  induction rs as [|r rs IH]; intros Hne; [done|].
  cbn [all_samples foldr]. fold (all_samples σ rs). fold (all_samples (<[h := c]> σ) rs).
  rewrite IH by (intros r' Hr'; apply Hne; by right).
  unfold samples_of. rewrite lookup_insert_ne; [done|].
  intros Heq. eapply Hne; [by left|done].
Qed.

(** The loop once the combined histogram exists: every further worker
    without a fatal error is merged into it. *)
Lemma collect_merge results : forall σ h hc total,
  σ !! h = Some hc ->
  histograms_present σ results ->
  (forall r, r ∈ results -> WorkerResult.Error r = None -> WorkerResult.Latencies r ≠ h) ->
  foldM collectOne (Some h, total) results σ
  = (fatal_events results,
     <[h := hc ⊎ all_samples σ (nonfatal results)]> σ,
     Done (Some h, foldl addWorker total (nonfatal results))).
Proof.
  induction results as [|r rs IH]; intros σ h hc total Hh Hpres Hne.
  - cbn. unfold ret. rewrite (right_id ∅ (⊎)). by rewrite insert_id.
  - cbn [foldM]. destruct (WorkerResult.Error r) as [e|] eqn:He.
    + erewrite bind_Done;
        [| by apply collectOne_fatal
         | apply (IH σ h hc total Hh (histograms_present_cons _ _ _ Hpres));
           intros r' Hr'; apply Hne; by right ].
      by rewrite (fatal_events_cons_fatal _ _ _ He), (nonfatal_cons_fatal _ _ _ He).
    + destruct (Hpres r ltac:(by left) He) as [fc Hfc].
      assert (Hrh : WorkerResult.Latencies r ≠ h) by (apply Hne; [by left|done]).
      erewrite bind_Done;
        [| by apply (collectOne_merge _ _ _ _ hc fc)
         | apply (IH _ h (hc ⊎ fc));
           [ by rewrite lookup_insert_eq
           | by apply histograms_present_insert, (histograms_present_cons _ r)
           | intros r' Hr'; apply Hne; by right ] ].
      rewrite (fatal_events_cons_ok _ _ He), (nonfatal_cons_ok _ _ He).
      rewrite insert_insert_eq. cbn [app foldl all_samples foldr].
      fold (all_samples σ (nonfatal rs)).
      rewrite all_samples_insert.
      2:{ intros r' Hr'. apply elem_of_nonfatal in Hr' as [Hr' He'].
          apply Hne; [by right|done]. }
      unfold samples_of at 1. rewrite Hfc. cbn [default].
      by rewrite (assoc (⊎)).
Qed.

Lemma fresh_not_present (σ : store) (r : WorkerResult.t) :
  is_Some (σ !! WorkerResult.Latencies r) ->
  WorkerResult.Latencies r ≠ fresh (dom σ).
Proof.
  intros Hs Heq. apply (is_fresh (dom σ)). rewrite <- Heq. by apply elem_of_dom.
Qed.

(** The whole loop, from no combined histogram. *)
Lemma collect_loop results : forall σ total,
  histograms_present σ results ->
  foldM collectOne (None, total) results σ
  = (fatal_events results, collected σ results,
     Done (combined σ results, foldl addWorker total (nonfatal results))).
Proof.
  induction results as [|r rs IH]; intros σ total Hpres.
  - reflexivity.
  - cbn [foldM]. destruct (WorkerResult.Error r) as [e|] eqn:He.
    + erewrite bind_Done;
        [| by apply collectOne_fatal
         | apply (IH σ total (histograms_present_cons _ _ _ Hpres)) ].
      unfold collected, combined.
      by rewrite (fatal_events_cons_fatal _ _ _ He), (nonfatal_cons_fatal _ _ _ He).
    + destruct (Hpres r ltac:(by left) He) as [fc Hfc].
      erewrite bind_Done;
        [| by apply (collectOne_first _ _ _ fc)
         | apply (collect_merge rs _ (fresh (dom σ)) fc);
           [ by rewrite lookup_insert_eq
           | by apply histograms_present_insert, (histograms_present_cons _ r)
           | intros r' Hr' He'; apply fresh_not_present, Hpres; [by right|done] ] ].
      unfold collected, combined.
      rewrite (fatal_events_cons_ok _ _ He), (nonfatal_cons_ok _ _ He).
      rewrite insert_insert_eq. cbn [app foldl all_samples foldr].
      fold (all_samples σ (nonfatal rs)).
      rewrite all_samples_insert.
      2:{ intros r' Hr'. apply elem_of_nonfatal in Hr' as [Hr' He'].
          apply fresh_not_present, Hpres; [by right|done]. }
      unfold samples_of at 1. by rewrite Hfc.
Qed.

Lemma receive_all (results : list WorkerResult.t) σ :
  receive (Z.of_nat (length results)) results σ = ([], σ, Done results).
Proof.
  unfold receive. rewrite Nat2Z.id, Nat.leb_refl, firstn_all.
  by replace (Z.of_nat (length results) <? 0) with false by (symmetry; apply Z.ltb_ge; lia).
Qed.

(** [collectResults] on a channel that holds one result per worker. *)
Lemma collectResults_run scenario results σ :
  histograms_present σ results ->
  collectResults scenario (Z.of_nat (length results)) results σ
  = (fatal_events results, collected σ results,
     Done match nonfatal results with
          | [] => (Result.zero, Some "all workers failed")
          | _ :: _ => (aggregate scenario σ results, None)
          end).
Proof.
  intros Hpres. unfold collectResults, bind.
  rewrite receive_all, (collect_loop _ _ _ Hpres).
  unfold aggregate, combined, ret.
  destruct (nonfatal results); cbn [app]; by rewrite app_nil_r.
Qed.

Lemma nonfatal_nil_iff results :
  nonfatal results = [] <-> Forall (fun r => is_Some (WorkerResult.Error r)) results.
Proof.
  induction results as [|r rs IH].
  - split; [constructor|done].
  - destruct (WorkerResult.Error r) as [e|] eqn:He.
    + rewrite (nonfatal_cons_fatal _ _ _ He), IH. split.
      * intros H. constructor; [rewrite He; eauto|done].
      * intros H. by apply Forall_cons in H as [_ H].
    + rewrite (nonfatal_cons_ok _ _ He). split; [done|].
      intros H. apply Forall_cons in H as [[e H] _]. congruence.
Qed.

Lemma nonfatal_cons_iff results :
  (exists r rs, nonfatal results = r :: rs)
  <-> Exists (fun r => WorkerResult.Error r = None) results.
Proof.
  rewrite Exists_exists. split.
  - intros (r & rs & Hnf). exists r. apply elem_of_nonfatal. rewrite Hnf. by left.
  - intros (r & Hr & He).
    assert (Hin : r ∈ nonfatal results) by (by apply elem_of_nonfatal).
    destruct (nonfatal results) as [|r' rs']; [by apply elem_of_nil in Hin|eauto].
Qed.

Lemma all_samples_Permutation σ rs rs' :
  rs ≡ₚ rs' -> all_samples σ rs = all_samples σ rs'.
Proof.
  induction 1 as [|r rs rs' _ IH|r1 r2 rs|rs1 rs2 rs3 _ IH1 _ IH2].
  - done.
  - cbn [all_samples foldr]. fold (all_samples σ rs) (all_samples σ rs'). by rewrite IH.
  - cbn [all_samples foldr]. fold (all_samples σ rs).
    rewrite !(assoc (⊎)). f_equal. apply (comm (⊎)).
  - by rewrite IH1.
Qed.

Lemma nonfatal_Permutation rs rs' : rs ≡ₚ rs' -> nonfatal rs ≡ₚ nonfatal rs'.
Proof. intros H. unfold nonfatal. by rewrite H. Qed.

Lemma histograms_present_Permutation σ rs rs' :
  rs ≡ₚ rs' -> histograms_present σ rs -> histograms_present σ rs'.
Proof. intros Hp H r Hr. apply H. by rewrite Hp. Qed.

Lemma collected_frame σ results l :
  is_Some (σ !! l) -> collected σ results !! l = σ !! l.
Proof.
  intros Hl. unfold collected. destruct (nonfatal results); [done|].
  rewrite lookup_insert_ne; [done|]. intros <-.
  apply (is_fresh (dom σ)). by apply elem_of_dom.
Qed.

Lemma sample_results_present : histograms_present sample_store sample_results.
Proof.
  intros r Hr He. unfold sample_results in Hr.
  repeat (apply elem_of_cons in Hr as [->|Hr]); [| discriminate He | |].
  - by eexists.
  - by eexists.
  - by apply elem_of_nil in Hr.
Qed.

(** ** The orchestrator's result collection *)

(** C1: result collection fails with the aggregate error exactly when
    every worker's WorkerResult carries a fatal Error; when at least one
    worker ended without a fatal Error a Result is returned with no
    error.  (The channel holds one result per worker, and a worker
    without a fatal error carries its histogram.) *)
Theorem C1_collectResults_fails_iff_all_fatal scenario results σ :
  histograms_present σ results ->
  exists total err,
    outcome (collectResults scenario (Z.of_nat (length results)) results σ)
      = Done (total, err)
    /\ (is_Some err <-> Forall (fun r => is_Some (WorkerResult.Error r)) results)
    /\ (Forall (fun r => is_Some (WorkerResult.Error r)) results ->
        err = Some "all workers failed" /\ total = Result.zero)
    /\ (Exists (fun r => WorkerResult.Error r = None) results ->
        err = None /\ total = aggregate scenario σ results).
Proof.
  intros Hpres. rewrite (collectResults_run _ _ _ Hpres). cbn [outcome snd].
  destruct (nonfatal results) as [|r rs] eqn:Hnf.
  - exists Result.zero, (Some "all workers failed"). split; [done|].
    apply nonfatal_nil_iff in Hnf. split; [|split].
    + split; [done|eauto].
    + done.
    + intros Hex. apply nonfatal_cons_iff in Hex as (r & rs & Hnf').
      apply nonfatal_nil_iff in Hnf. congruence.
  - exists (aggregate scenario σ results), None. split; [done|].
    split; [|split].
    + split; [by intros [? ?]|]. intros Hall.
      apply nonfatal_nil_iff in Hall. congruence.
    + intros Hall. apply nonfatal_nil_iff in Hall. congruence.
    + done.
Qed.

Lemma C1_collectResults_witness :
  histograms_present sample_store sample_results
  /\ exists total err,
       outcome (collectResults "run" (Z.of_nat (length sample_results))
                  sample_results sample_store) = Done (total, err)
       /\ (is_Some err <-> Forall (fun r => is_Some (WorkerResult.Error r)) sample_results)
       /\ (Forall (fun r => is_Some (WorkerResult.Error r)) sample_results ->
           err = Some "all workers failed" /\ total = Result.zero)
       /\ (Exists (fun r => WorkerResult.Error r = None) sample_results ->
           err = None /\ total = aggregate "run" sample_store sample_results).
Proof.
  split; [exact sample_results_present|].
  exact (C1_collectResults_fails_iff_all_fatal "run" sample_results sample_store
           sample_results_present).
Defined.

(** C3: in the aggregate Result, TotalSucceeded, TotalFailed and
    TotalRate are the sums of succeeded, failed and rate over exactly the
    workers without a fatal Error (the rates added in arrival order,
    starting from zero), and Workers keeps every WorkerResult, the fatal
    ones included. *)
Theorem C3_totals_over_nonfatal_workers scenario results σ :
  histograms_present σ results ->
  Exists (fun r => WorkerResult.Error r = None) results ->
  exists total,
    outcome (collectResults scenario (Z.of_nat (length results)) results σ)
      = Done (total, None)
    /\ Result.TotalSucceeded total = sumZ (WorkerResult.Succeeded <$> nonfatal results)
    /\ Result.TotalFailed total = sumZ (WorkerResult.Failed <$> nonfatal results)
    /\ Result.TotalRate total
       = foldl f64_add (S754_zero false) (WorkerResult.Rate <$> nonfatal results)
    /\ Result.Workers total = results.
Proof.
  intros Hpres Hex. rewrite (collectResults_run _ _ _ Hpres). cbn [outcome snd].
  apply nonfatal_cons_iff in Hex as (r & rs & Hnf). rewrite Hnf.
  exists (aggregate scenario σ results). split; [done|].
  unfold aggregate. cbn [Result.TotalSucceeded Result.TotalFailed Result.TotalRate
                         Result.Workers].
  rewrite addWorker_fold_Succeeded, addWorker_fold_Failed, addWorker_fold_Rate.
  destruct (addWorker_fold_frame (nonfatal results)
              (Result.Build scenario (S754_zero false) 0 0 None ∅ results))
    as (_ & _ & ->).
  cbn. rewrite Hnf. repeat split; lia.
Qed.

Lemma C3_totals_witness :
  (histograms_present sample_store sample_results
   /\ Exists (fun r => WorkerResult.Error r = None) sample_results)
  /\ exists total,
       outcome (collectResults "run" (Z.of_nat (length sample_results))
                  sample_results sample_store) = Done (total, None)
       /\ Result.TotalSucceeded total
          = sumZ (WorkerResult.Succeeded <$> nonfatal sample_results)
       /\ Result.TotalFailed total
          = sumZ (WorkerResult.Failed <$> nonfatal sample_results)
       /\ Result.TotalRate total
          = foldl f64_add (S754_zero false) (WorkerResult.Rate <$> nonfatal sample_results)
       /\ Result.Workers total = sample_results.
Proof.
  assert (Hex : Exists (fun r => WorkerResult.Error r = None) sample_results)
    by (by apply Exists_cons_hd).
  split; [split; [exact sample_results_present|exact Hex]|].
  exact (C3_totals_over_nonfatal_workers "run" sample_results sample_store
           sample_results_present Hex).
Defined.

(** C2 (as the code has it): for every error-signature key the aggregate
    Count is the sum of that key's Counts over the workers without a
    fatal Error, and the aggregate FirstFailure is the FirstFailure of
    the first of those workers, in arrival order, that holds the key; a
    key no such worker holds is absent. *)
Theorem C2_failure_groups_merged scenario results σ k :
  histograms_present σ results ->
  exists total err,
    outcome (collectResults scenario (Z.of_nat (length results)) results σ)
      = Done (total, err)
    /\ Result.FailedByErrorGroup total !! k
       = match groupsAt k (nonfatal results) with
         | [] => None
         | g :: gs =>
             Some (FailureGroup.Build (sumZ (FailureGroup.Count <$> g :: gs))
                     (FailureGroup.FirstFailure g))
         end.
Proof.
  intros Hpres. rewrite (collectResults_run _ _ _ Hpres). cbn [outcome snd].
  destruct (nonfatal results) as [|r rs] eqn:Hnf.
  - exists Result.zero, (Some "all workers failed"). split; [done|].
    cbn. by rewrite lookup_empty.
  - exists (aggregate scenario σ results), None. split; [done|].
    unfold aggregate. cbn [Result.FailedByErrorGroup].
    rewrite addWorker_fold_lookup, Hnf. cbn [Result.FailedByErrorGroup].
    rewrite lookup_empty.
    destruct (groupsAt k (r :: rs)) as [|g gs]; [done|].
    cbn [foldl]. unfold mergeAt at 2. rewrite foldl_mergeAt_Some.
    by rewrite fmap_cons, sumZ_cons.
Qed.

Lemma C2_failure_groups_witness :
  histograms_present sample_store sample_results
  /\ exists total err,
       outcome (collectResults "run" (Z.of_nat (length sample_results))
                  sample_results sample_store) = Done (total, err)
       /\ Result.FailedByErrorGroup total !! "boom"
          = match groupsAt "boom" (nonfatal sample_results) with
            | [] => None
            | g :: gs =>
                Some (FailureGroup.Build (sumZ (FailureGroup.Count <$> g :: gs))
                        (FailureGroup.FirstFailure g))
            end.
Proof.
  split; [exact sample_results_present|].
  exact (C2_failure_groups_merged "run" sample_results sample_store "boom"
           sample_results_present).
Defined.

(** C2 as stated fails: the first worker saw "boom" at time 10 and the
    third at time 5; the aggregate counts 4 failures and keeps 10 as
    FirstFailure, not the earliest, 5. *)
Lemma C2_first_failure_not_earliest :
  exists total,
    outcome (collectResults "run" 3 sample_results sample_store) = Done (total, None)
    /\ Result.FailedByErrorGroup total !! "boom" = Some (FailureGroup.Build 4 10)
    /\ earliest (groupsAt "boom" (nonfatal sample_results)) = Some 5.
Proof.
  eexists. split; [vm_compute; reflexivity|]. split; vm_compute; reflexivity.
Qed.

(** C7: the combined histogram does not depend on the order in which
    the workers' results arrive: for any two arrival orders the percentile
    queries on the combined histogram agree, and equal those on the union
    of the samples of the workers without a fatal error; the combined
    histogram is a new object, and every histogram that existed before,
    the first worker's included, is left as it was. *)
Theorem C7_combined_histogram_order_independent scenario results results' σ :
  histograms_present σ results ->
  results ≡ₚ results' ->
  Exists (fun r => WorkerResult.Error r = None) results ->
  let run := collectResults scenario (Z.of_nat (length results)) results σ in
  let run' := collectResults scenario (Z.of_nat (length results')) results' σ in
  exists total total' h h' merged merged',
    outcome run = Done (total, None)
    /\ outcome run' = Done (total', None)
    /\ Result.TotalLatencies total = Some h
    /\ Result.TotalLatencies total' = Some h'
    /\ final run !! h = Some merged
    /\ final run' !! h' = Some merged'
    /\ (forall q, ValueAtQuantile q merged = ValueAtQuantile q merged')
    /\ (forall q, ValueAtQuantile q merged
                  = ValueAtQuantile q (all_samples σ (nonfatal results)))
    /\ σ !! h = None
    /\ (forall l, is_Some (σ !! l) -> final run !! l = σ !! l).
Proof.
  intros Hpres Hperm Hex run run'. subst run run'.
  pose proof (histograms_present_Permutation _ _ _ Hperm Hpres) as Hpres'.
  rewrite (collectResults_run _ _ _ Hpres), (collectResults_run _ _ _ Hpres').
  cbn [outcome final fst snd].
  assert (Hex' : Exists (fun r => WorkerResult.Error r = None) results')
    by (by rewrite <- Hperm).
  pose proof (all_samples_Permutation σ _ _ (nonfatal_Permutation _ _ Hperm)) as Hsame.
  apply nonfatal_cons_iff in Hex as (r & rs & Hnf).
  apply nonfatal_cons_iff in Hex' as (r' & rs' & Hnf').
  exists (aggregate scenario σ results), (aggregate scenario σ results'),
    (fresh (dom σ)), (fresh (dom σ)),
    (all_samples σ (nonfatal results)), (all_samples σ (nonfatal results')).
  assert (Hframe : forall l, is_Some (σ !! l) -> collected σ results !! l = σ !! l)
    by apply collected_frame.
  unfold aggregate, combined, collected. cbn [Result.TotalLatencies].
  unfold collected in Hframe. rewrite Hnf in Hframe.
  rewrite Hnf, Hnf' in Hsame |- *. rewrite !lookup_insert_eq.
  repeat split; try done.
  - intros q. by rewrite Hsame.
  - apply not_elem_of_dom, is_fresh.
Qed.

Lemma C7_combined_histogram_witness :
  (histograms_present sample_store sample_results
   /\ sample_results ≡ₚ reverse sample_results
   /\ Exists (fun r => WorkerResult.Error r = None) sample_results)
  /\ let run := collectResults "run" (Z.of_nat (length sample_results))
                  sample_results sample_store in
     let run' := collectResults "run" (Z.of_nat (length (reverse sample_results)))
                   (reverse sample_results) sample_store in
     exists total total' h h' merged merged',
       outcome run = Done (total, None)
       /\ outcome run' = Done (total', None)
       /\ Result.TotalLatencies total = Some h
       /\ Result.TotalLatencies total' = Some h'
       /\ final run !! h = Some merged
       /\ final run' !! h' = Some merged'
       /\ (forall q, ValueAtQuantile q merged = ValueAtQuantile q merged')
       /\ (forall q, ValueAtQuantile q merged
                     = ValueAtQuantile q (all_samples sample_store (nonfatal sample_results)))
       /\ sample_store !! h = None
       /\ (forall l, is_Some (sample_store !! l) -> final run !! l = sample_store !! l).
Proof.
  assert (Hex : Exists (fun r => WorkerResult.Error r = None) sample_results)
    by (by apply Exists_cons_hd).
  assert (Hperm : sample_results ≡ₚ reverse sample_results)
    by (symmetry; apply reverse_Permutation).
  split; [split; [exact sample_results_present|split; [exact Hperm|exact Hex]]|].
  exact (C7_combined_histogram_order_independent "run" sample_results
           (reverse sample_results) sample_store sample_results_present Hperm Hex).
Defined.

Example sample_median :
  exists total h merged,
    outcome (collectResults "run" 3 sample_results sample_store) = Done (total, None)
    /\ Result.TotalLatencies total = Some h
    /\ final (collectResults "run" 3 sample_results sample_store) !! h = Some merged
    /\ ValueAtQuantile 50 merged = 100
    /\ ValueAtQuantile 75 merged = 250
    /\ ValueAtQuantile 100 merged = 300.
Proof.
  do 3 eexists. split; [vm_compute; reflexivity|].
  split; [reflexivity|]. split; [vm_compute; reflexivity|].
  repeat split; vm_compute; reflexivity.
Qed.

(** ** Traces *)

Lemma events_bind {A B} (m : M A) (f : A -> M B) σ :
  events (bind m f σ)
  = events (m σ) ++ match outcome (m σ) with
                    | Done a => events (f a (final (m σ)))
                    | Halt _ => []
                    end.
Proof.
  unfold bind. destruct (m σ) as [[t1 σ1] [a|s]]; cbn.
  - destruct (f a σ1) as [[t2 σ2] r]. reflexivity.
  - by rewrite app_nil_r.
Qed.

Lemma outcome_bind {A B} (m : M A) (f : A -> M B) σ :
  outcome (bind m f σ)
  = match outcome (m σ) with
    | Done a => outcome (f a (final (m σ)))
    | Halt s => Halt s
    end.
Proof.
  unfold bind. destruct (m σ) as [[t1 σ1] [a|s]]; cbn; [|done].
  destruct (f a σ1) as [[t2 σ2] r]. reflexivity.
Qed.

Lemma silent_ret {A} p (a : A) : silent p (ret a).
Proof. intros σ. constructor. Qed.

Lemma silent_halt {A} p s : silent p (@halt A s).
Proof. intros σ. constructor. Qed.

Lemma silent_emit p e : p e = false -> silent p (emit e).
Proof. intros He σ. by repeat constructor. Qed.

Lemma silent_bind {A B} p (m : M A) (f : A -> M B) :
  silent p m -> (forall a, silent p (f a)) -> silent p (bind m f).
Proof.
  intros Hm Hf σ. unfold none_of. rewrite events_bind. apply Forall_app. split.
  - apply Hm.
  - destruct (outcome (m σ)); [apply Hf|constructor].
Qed.

Lemma silent_foldM {A B} p (f : B -> A -> M B) l :
  (forall b a, silent p (f b a)) -> forall b, silent p (foldM f b l).
Proof.
  intros Hf. induction l as [|a l IH]; intros b; cbn [foldM].
  - apply silent_ret.
  - apply silent_bind; [apply Hf|apply IH].
Qed.

Lemma silent_forM {A B} p (f : A -> M B) l :
  (forall a, silent p (f a)) -> silent p (forM f l).
Proof.
  intros Hf. unfold forM. apply silent_foldM. intros b a.
  apply silent_bind; [apply Hf|intros; apply silent_ret].
Qed.

Lemma silent_log_Fatal {A} p msg : p (EvLogFatal msg) = false -> silent p (@log_Fatal A msg).
Proof.
  intros Hp. unfold log_Fatal. apply silent_bind; [by apply silent_emit|].
  intros _. apply silent_halt.
Qed.

Lemma silent_load p l : silent p (load l).
Proof. intros σ. unfold load. destruct (σ !! l); constructor. Qed.

Lemma silent_Import p s : silent p (Import s).
Proof. intros σ. constructor. Qed.

Lemma silent_Export p h : silent p (Export h).
Proof.
  unfold Export. apply silent_bind; [apply silent_load|intros; apply silent_ret].
Qed.

Lemma silent_Merge p h from : silent p (Merge h from).
Proof.
  unfold Merge. apply silent_bind; [apply silent_load|]. intros hc.
  apply silent_bind; [apply silent_load|]. intros fc σ. constructor.
Qed.

Lemma silent_collectOne p acc r :
  (forall msg, p (EvErrorf msg) = false) -> silent p (collectOne acc r).
Proof.
  intros Hp. destruct acc as [c total]. unfold collectOne.
  destruct (WorkerResult.Error r).
  - apply silent_bind; [by apply silent_emit|intros; apply silent_ret].
  - apply silent_bind; [|intros; apply silent_ret].
    destruct c.
    + apply silent_bind; [apply silent_Merge|intros; apply silent_ret].
    + apply silent_bind; [apply silent_Export|]. intros s.
      apply silent_bind; [apply silent_Import|intros; apply silent_ret].
Qed.

Lemma silent_collectResults p scenario concurrency resultChan :
  (forall msg, p (EvErrorf msg) = false) ->
  silent p (collectResults scenario concurrency resultChan).
Proof.
  intros Hp. unfold collectResults. apply silent_bind.
  - unfold receive. repeat case_match; first [apply silent_ret|apply silent_halt].
  - intros results. apply silent_bind.
    + apply silent_foldM. intros b a. by apply silent_collectOne.
    + intros [[h|] total]; apply silent_ret.
Qed.

Lemma silent_workerDone X p pace i :
  (forall msg, p (EvErrorf msg) = false) -> p EvStop = false ->
  silent p (workerDone X pace i).
Proof.
  intros Hp Hs. unfold workerDone. apply silent_bind; [apply silent_Import|].
  intros h. cbn [WorkerResult.Error]. destruct (run_Error _).
  - apply silent_bind; [by apply silent_emit|]. intros _.
    apply silent_bind; [by apply silent_emit|]. intros _. apply silent_ret.
  - apply silent_ret.
Qed.

Lemma worker_starts_app t1 t2 :
  worker_starts (t1 ++ t2) = worker_starts t1 ++ worker_starts t2.
Proof. unfold worker_starts. apply omap_app. Qed.

Lemma worker_starts_none t : none_of is_worker_start t -> worker_starts t = [].
Proof.
  induction 1 as [|e t He _ IH]; [done|].
  unfold worker_starts in *. cbn [omap list_omap]. rewrite IH.
  destruct e; try done.
Qed.

(** ** The deferred stop *)

Lemma events_defer_stop {A} (rest : M A) σ :
  events (defer_stop rest σ)
  = events (rest σ) ++ match outcome (rest σ) with
                       | Done _ | Halt (Panic _) => [EvStop]
                       | Halt _ => []
                       end.
Proof.
  unfold defer_stop. destruct (rest σ) as [[t σ1] [a|[code|msg|]]]; cbn;
    by rewrite ?app_nil_r.
Qed.

Lemma outcome_defer_stop {A} (rest : M A) σ :
  outcome (defer_stop rest σ) = outcome (rest σ).
Proof. unfold defer_stop. by destruct (rest σ) as [[t σ1] [a|[code|msg|]]]. Qed.

Lemma final_defer_stop {A} (rest : M A) σ :
  final (defer_stop rest σ) = final (rest σ).
Proof. unfold defer_stop. by destruct (rest σ) as [[t σ1] [a|[code|msg|]]]. Qed.

Lemma silent_defer_stop {A} p (rest : M A) :
  p EvStop = false -> silent p rest -> silent p (defer_stop rest).
Proof.
  intros Hstop Hrest σ. unfold none_of. rewrite events_defer_stop.
  apply Forall_app. split; [apply Hrest|].
  destruct (outcome (rest σ)) as [a|[code|msg|]]; by repeat constructor.
Qed.

(** ** runBenchmark: the workers it starts *)

Lemma startAll_run (pace : Duration) (l : list Z) σ :
  forM (fun i => emit (EvWorkerStart i pace)) l σ
  = ((fun i => EvWorkerStart i pace) <$> l, σ, Done ((fun _ => tt) <$> l)).
Proof.
  unfold forM.
  enough (H : forall acc,
             foldM (fun acc a => let* b := emit (EvWorkerStart a pace) in ret (acc ++ [b]))
               acc l σ
             = ((fun i => EvWorkerStart i pace) <$> l, σ, Done (acc ++ ((fun _ => tt) <$> l))))
    by apply (H []).
  induction l as [|i l IH]; intros acc.
  - cbn. by rewrite app_nil_r.
  - cbn [foldM]. erewrite bind_Done; [|reflexivity|apply IH].
    rewrite !fmap_cons. cbn [app]. do 2 f_equal. by rewrite <- app_assoc.
Qed.

Lemma worker_starts_started (pace : Duration) (l : list Z) :
  worker_starts ((fun i => EvWorkerStart i pace) <$> l) = (fun i => (i, pace)) <$> l.
Proof.
  induction l as [|i l IH]; [done|].
  rewrite !fmap_cons. unfold worker_starts in *. cbn [omap list_omap]. by rewrite IH.
Qed.

(** Everything [runBenchmark] does after it has started the workers. *)
Lemma runBenchmark_after_start X scenario (runtime pace : Duration) numClients :
  silent is_worker_start
    (emit (EvReportProgress "benchmark" "run") ;;
     emit (EvAwaitCompletion runtime) ;;
     emit EvStop ;;
     emit (EvReportProgress "benchmark" "stopping") ;;
     let* resultChan := forM (workerDone X pace) (arrival X numClients) in
     collectResults scenario numClients resultChan).
Proof.
  repeat (apply silent_bind; [by apply silent_emit|intros _]).
  apply silent_bind.
  { apply silent_forM. intros i. by apply silent_workerDone. }
  intros resultChan. by apply silent_collectResults.
Qed.

Lemma runBenchmark_worker_starts X scenario wrk runtime latencyMode numClients rate σ :
  worker_starts (events (runBenchmark X scenario wrk runtime latencyMode numClients rate σ))
  = (fun i => (i, ratePerWorkerDuration X latencyMode numClients rate)) <$> seqZ 0 numClients.
Proof.
  unfold runBenchmark. rewrite events_bind. cbn [emit events outcome final fst snd].
  rewrite events_defer_stop.
  change (EvSetupSignalHandler :: ?t) with ([EvSetupSignalHandler] ++ t).
  rewrite !worker_starts_app.
  assert (Hstop : forall o : step (Result.t * error),
            worker_starts match o with
                          | Done _ | Halt (Panic _) => [EvStop]
                          | Halt _ => []
                          end = []) by (by intros [a|[code|msg|]]).
  rewrite Hstop, app_nil_r. clear Hstop.
  cbn zeta. rewrite events_bind.
  destruct (Z.ltb_spec numClients 0) as [Hneg|Hpos];
    cbn [ret halt events outcome final fst snd app].
  - unfold seqZ. by replace (Z.to_nat numClients) with 0%nat by lia.
  - rewrite events_bind, startAll_run. cbn [events outcome final fst snd].
    rewrite !worker_starts_app, worker_starts_started.
    rewrite (worker_starts_none (events _));
      [|apply (runBenchmark_after_start X scenario runtime _ numClients)].
    by rewrite !app_nil_r.
Qed.

(** ** main: what each part emits *)

Lemma silent_createScript X p path weight :
  (forall a, p (EvReadFile a) = false) ->
  (forall a b c, p (EvParse a b c) = false) ->
  silent p (createScript X path weight).
Proof.
  intros Hr Hp. unfold createScript, neobench_Parse.
  destruct (String.eqb path builtin_tpcb_like).
  - apply silent_bind; [by apply silent_emit|intros; apply silent_ret].
  - apply silent_bind; [by apply silent_emit|intros _].
    destruct (ReadFile X path); [apply silent_ret|].
    apply silent_bind; [by apply silent_emit|intros; apply silent_ret].
Qed.

Lemma silent_main_variables X F p :
  (forall msg, p (EvLogFatal msg) = false) -> silent p (main_variables X F).
Proof.
  intros Hf. unfold main_variables. apply silent_foldM. intros vars kv.
  destruct (define X vars kv); [by apply silent_log_Fatal|apply silent_ret].
Qed.

Lemma silent_main_scripts X F p :
  (forall msg, p (EvLogFatal msg) = false) ->
  (forall a, p (EvReadFile a) = false) ->
  (forall a b c, p (EvParse a b c) = false) ->
  silent p (main_scripts X F).
Proof.
  intros Hf Hr Hp. unfold main_scripts. apply silent_forM. intros path.
  unfold main_workload. destruct (workloadArgs path) as [[path' weight]|].
  - apply silent_bind; [by apply silent_createScript|].
    intros [err|script]; [by apply silent_log_Fatal|apply silent_ret].
  - by apply silent_log_Fatal.
Qed.

Lemma silent_main_setup X F p :
  (forall msg, p (EvLogFatal msg) = false) ->
  (forall a, p (EvNewOutput a) = false) ->
  (forall a b c d, p (EvNewDriver a b c d) = false) ->
  (forall a, p (EvReadFile a) = false) ->
  (forall a b c, p (EvParse a b c) = false) ->
  silent p (main_setup X F).
Proof.
  intros Hf Ho Hd Hr Hp. unfold main_setup.
  apply silent_bind; [by apply silent_emit|intros _].
  apply silent_bind.
  { destruct (NewOutput X _); [by apply silent_log_Fatal|apply silent_ret]. }
  intros _. apply silent_bind.
  { destruct (encryptionMode X F); [apply silent_ret|by apply silent_log_Fatal]. }
  intros mode. apply silent_bind; [by apply silent_emit|intros _].
  apply silent_bind.
  { destruct (NewDriver X _ _ _ _); [by apply silent_log_Fatal|apply silent_ret]. }
  intros _. apply silent_bind; [by apply silent_main_variables|intros variables].
  apply silent_bind; [by apply silent_main_scripts|intros scripts].
  apply silent_ret.
Qed.

Lemma silent_initWorkload X p paths scale :
  (forall s, p (EvInitTPCBLike s) = false) -> silent p (initWorkload X paths scale).
Proof.
  intros Hi. induction paths as [|path paths IH]; cbn [initWorkload].
  - apply silent_ret.
  - destruct (String.eqb path builtin_tpcb_like); [|done].
    apply silent_bind; [by apply silent_emit|intros; apply silent_ret].
Qed.

Lemma silent_main_init X F p :
  (forall msg, p (EvLogFatal msg) = false) ->
  (forall s, p (EvInitTPCBLike s) = false) ->
  silent p (main_init X F).
Proof.
  intros Hf Hi. unfold main_init. destruct (fInitMode F); [|apply silent_ret].
  apply silent_bind; [by apply silent_initWorkload|].
  intros [e|]; [by apply silent_log_Fatal|apply silent_ret].
Qed.

Lemma silent_runBenchmark X p scenario wrk runtime latencyMode numClients rate :
  p EvSetupSignalHandler = false ->
  (forall i d, p (EvWorkerStart i d) = false) ->
  (forall a b, p (EvReportProgress a b) = false) ->
  (forall d, p (EvAwaitCompletion d) = false) ->
  p EvStop = false ->
  (forall msg, p (EvErrorf msg) = false) ->
  silent p (runBenchmark X scenario wrk runtime latencyMode numClients rate).
Proof.
  intros Hs Hw Hp Ha Hst He. unfold runBenchmark.
  apply silent_bind; [by apply silent_emit|intros _].
  apply silent_defer_stop; [done|].
  cbn zeta. apply silent_bind.
  { destruct (numClients <? 0); [apply silent_halt|apply silent_ret]. }
  intros _. apply silent_bind.
  { apply silent_forM. intros i. by apply silent_emit. }
  intros _. repeat (apply silent_bind; [by apply silent_emit|intros _]).
  apply silent_bind.
  { apply silent_forM. intros i. by apply silent_workerDone. }
  intros resultChan. by apply silent_collectResults.
Qed.

Lemma silent_main_run X F p wrk :
  p EvSetupSignalHandler = false ->
  (forall i d, p (EvWorkerStart i d) = false) ->
  (forall a b, p (EvReportProgress a b) = false) ->
  (forall d, p (EvAwaitCompletion d) = false) ->
  p EvStop = false ->
  (forall msg, p (EvErrorf msg) = false) ->
  (forall r, p (EvReportLatency r) = false) ->
  (forall r, p (EvReportThroughput r) = false) ->
  silent p (main_run X F wrk).
Proof.
  intros Hs Hw Hp Ha Hst He Hl Ht. unfold main_run.
  destruct (fLatencyMode F).
  - apply silent_bind; [by apply silent_runBenchmark|].
    intros [result [e|]];
      (apply silent_bind; [by apply silent_emit|intros; apply silent_halt]).
  - apply silent_bind; [by apply silent_runBenchmark|].
    intros [result [e|]];
      (apply silent_bind; [by apply silent_emit|intros; apply silent_halt]).
Qed.

(** The trace of [main]: the setup, then the initialisation, then the
    run, each only when the one before did not end the program. *)
Lemma main_events X F σ :
  events (main X F σ)
  = events (main_setup X F σ)
    ++ match outcome (main_setup X F σ) with
       | Done wrk =>
           let σ1 := final (main_setup X F σ) in
           events (main_init X F σ1)
           ++ match outcome (main_init X F σ1) with
              | Done _ => events (main_run X F wrk (final (main_init X F σ1)))
              | Halt _ => []
              end
       | Halt _ => []
       end.
Proof.
  unfold main. rewrite events_bind.
  destruct (outcome (main_setup X F σ)); [|done].
  by rewrite events_bind.
Qed.

Lemma main_outcome X F σ :
  outcome (main X F σ)
  = match outcome (main_setup X F σ) with
    | Done wrk =>
        let σ1 := final (main_setup X F σ) in
        match outcome (main_init X F σ1) with
        | Done _ => outcome (main_run X F wrk (final (main_init X F σ1)))
        | Halt s => Halt s
        end
    | Halt s => Halt s
    end.
Proof.
  unfold main. rewrite outcome_bind.
  destruct (outcome (main_setup X F σ)); [|done].
  by rewrite outcome_bind.
Qed.

Lemma main_run_worker_starts X F wrk σ :
  worker_starts (events (main_run X F wrk σ))
  = worker_starts
      (events (runBenchmark X (describeScenario X F) wrk (wrap64 (fDuration F * Second))
                 (fLatencyMode F) (fClients F) (fRate F) σ)).
Proof.
  unfold main_run.
  destruct (fLatencyMode F); rewrite events_bind, worker_starts_app;
    (destruct (outcome _) as [[result [e|]]|]; cbn; by rewrite app_nil_r).
Qed.

(** Every worker [main] starts is paced at the interval computed from
    the flags. *)
Lemma main_worker_paces X F σ :
  Forall (fun s => s.2 = ratePerWorkerDuration X (fLatencyMode F) (fClients F) (fRate F))
    (worker_starts (events (main X F σ))).
Proof.
  rewrite main_events, worker_starts_app.
  rewrite (worker_starts_none (events (main_setup X F σ)))
    by (by apply silent_main_setup).
  destruct (outcome (main_setup X F σ)) as [wrk|]; [|constructor].
  cbn zeta. rewrite worker_starts_app.
  rewrite (worker_starts_none (events (main_init X F _)))
    by (by apply silent_main_init).
  destruct (outcome (main_init X F _)); [|constructor].
  cbn [app]. rewrite main_run_worker_starts, runBenchmark_worker_starts.
  apply Forall_fmap. by apply Forall_true.
Qed.

(** ** Pacing *)

(** [int64(x)] is the value of [x] with its fraction dropped. *)
Lemma f64_to_int64_truncates x t :
  f64_to_int64 x = Some t ->
  exists num den, f64_fraction x = Some (num, den) /\ 0 < den /\ t = num ÷ den.
Proof.
  destruct x as [s|s| |s m e]; cbn [f64_to_int64 f64_fraction]; try done.
  - intros [= <-]. exists 0, 1. by rewrite Z.quot_0_l.
  - destruct (in_int64 _); [|done]. intros [= <-]. unfold trunc_mag.
    destruct (Z.leb_spec 0 e) as [He|He].
    + eexists _, 1. split; [done|]. split; [lia|]. rewrite Z.quot_1_r.
      destruct s; lia.
    + eexists _, _. split; [done|].
      assert (0 < 2 ^ (- e)) by (apply Z.pow_pos_nonneg; lia).
      split; [done|]. destruct s.
      * change (Z.neg m) with (- Z.pos m). rewrite Z.quot_opp_l by lia.
        by rewrite Z.quot_div_nonneg by lia.
      * by rewrite Z.quot_div_nonneg by lia.
Qed.

(** C4 (as the code has it): in latency mode the interval handed to
    every worker is the float64 quotient 1000*1000/(rate/numClients), one
    second divided by the per-worker rate in microseconds, with its
    fraction dropped, times one microsecond (when the quotient fits an
    int64); for 10 tx/s on 2 workers that is exactly 200ms. *)
Theorem C4_latency_mode_pacing X scenario wrk runtime numClients rate σ micros :
  f64_to_int64 (f64_div (f64_of_int (1000 * 1000)) (f64_div rate (f64_of_int numClients)))
    = Some micros ->
  ratePerWorkerDuration X true numClients rate = wrap64 (micros * Microsecond)
  /\ worker_starts (events (runBenchmark X scenario wrk runtime true numClients rate σ))
     = (fun i => (i, wrap64 (micros * Microsecond))) <$> seqZ 0 numClients
  /\ (exists num den,
        f64_fraction (f64_div (f64_of_int (1000 * 1000)) (f64_div rate (f64_of_int numClients)))
          = Some (num, den)
        /\ 0 < den /\ micros = num ÷ den)
  /\ ratePerWorkerDuration X true 2 (f64_of_int 10) = 200 * Millisecond.
Proof.
  intros Hq.
  assert (Hpace : ratePerWorkerDuration X true numClients rate
                  = wrap64 (micros * Microsecond))
    by (unfold ratePerWorkerDuration, int64_of_float64; by rewrite Hq).
  split; [done|]. split.
  - by rewrite runBenchmark_worker_starts, Hpace.
  - split; [by apply f64_to_int64_truncates|]. reflexivity.
Qed.

Lemma C4_latency_mode_pacing_witness :
  f64_to_int64 (f64_div (f64_of_int (1000 * 1000))
                  (f64_div (f64_of_int 10) (f64_of_int 2))) = Some 200000
  /\ ratePerWorkerDuration sampleX true 2 (f64_of_int 10) = wrap64 (200000 * Microsecond)
  /\ worker_starts (events (runBenchmark sampleX "run" {| Variables := ∅; Scripts := [] |}
                              (60 * Second) true 2 (f64_of_int 10) ∅))
     = (fun i => (i, wrap64 (200000 * Microsecond))) <$> seqZ 0 2
  /\ (exists num den,
        f64_fraction (f64_div (f64_of_int (1000 * 1000))
                        (f64_div (f64_of_int 10) (f64_of_int 2))) = Some (num, den)
        /\ 0 < den /\ 200000 = num ÷ den)
  /\ ratePerWorkerDuration sampleX true 2 (f64_of_int 10) = 200 * Millisecond.
Proof.
  split; [vm_compute; reflexivity|].
  apply (C4_latency_mode_pacing sampleX "run" {| Variables := ∅; Scripts := [] |}
           (60 * Second) 2 (f64_of_int 10) ∅ 200000).
  vm_compute. reflexivity.
Defined.

(** C4 as stated fails: at 3 tx/s on one worker the interval is
    333333000ns; one second divided by 3 is 333333333ns when cut to whole
    nanoseconds, and three intervals do not make up the second. *)
Lemma C4_interval_drops_fraction_of_microsecond :
  ratePerWorkerDuration sampleX true 1 (f64_of_int 3) = 333333000
  /\ Second / 3 = 333333333
  /\ 3 * 333333000 <> Second.
Proof. split; [vm_compute; reflexivity|]. split; [reflexivity|discriminate]. Qed.

(** C5: in throughput mode (latency mode not selected) the interval
    passed to every worker is zero. *)
Theorem C5_throughput_mode_no_pacing X F σ :
  (forall scenario wrk runtime numClients rate σ',
     ratePerWorkerDuration X false numClients rate = 0
     /\ worker_starts (events (runBenchmark X scenario wrk runtime false numClients rate σ'))
        = (fun i => (i, 0)) <$> seqZ 0 numClients)
  /\ (fLatencyMode F = false ->
      Forall (fun s => s.2 = 0) (worker_starts (events (main X F σ)))).
Proof.
  split.
  - intros. split; [done|]. by rewrite runBenchmark_worker_starts.
  - intros Hmode. pose proof (main_worker_paces X F σ) as H.
    by rewrite Hmode in H.
Qed.

Lemma C5_throughput_mode_witness :
  fLatencyMode sampleF = false
  /\ worker_starts (events (main sampleX sampleF ∅)) = [(0, 0); (1, 0)]
  /\ Forall (fun s => s.2 = 0) (worker_starts (events (main sampleX sampleF ∅))).
Proof.
  split; [reflexivity|]. split; [vm_compute; reflexivity|].
  exact (proj2 (C5_throughput_mode_no_pacing sampleX sampleF ∅) eq_refl).
Defined.

(** ** The encryption flag *)

Lemma lowerByte_ascii c : (byte_val (lowerByte c) <? 128) = (byte_val c <? 128).
Proof.
  destruct c as [[|] [|] [|] [|] [|] [|] [|] [|]]; vm_compute; reflexivity.
Qed.

Lemma isASCII_mapBytes_lower s : isASCII (mapBytes lowerByte s) = isASCII s.
Proof.
  induction s as [|c s IH]; [done|].
  cbn [mapBytes isASCII]. by rewrite lowerByte_ascii, IH.
Qed.

Lemma elem_str_true s l : elem_str s l = true <-> s ∈ l.
Proof.
  unfold elem_str. rewrite existsb_exists. split.
  - intros (x & Hin & Heq). apply String.eqb_eq in Heq. subst x.
    by apply list_elem_of_In.
  - intros Hin. exists s. split; [by apply list_elem_of_In|apply String.eqb_refl].
Qed.

(** The two cases of a letter are lowered to the same byte. *)
Lemma sameLetter_lowerByte c d : sameLetter c d = true -> lowerByte c = lowerByte d.
Proof.
  unfold sameLetter. intros [Heq|Hpair]%orb_true_iff.
  - by apply Ascii.eqb_eq in Heq as ->.
  - apply existsb_exists in Hpair as (p & Hin & Hp).
    cbn in Hin.
    repeat (destruct Hin as [<-|Hin];
            [apply orb_true_iff in Hp
               as [[->%Ascii.eqb_eq ->%Ascii.eqb_eq]%andb_true_iff
                  |[->%Ascii.eqb_eq ->%Ascii.eqb_eq]%andb_true_iff];
             reflexivity|]).
    destruct Hin.
Qed.

(** A byte and its lowering are the same byte or the two cases of one
    letter. *)
Lemma sameLetter_lowered c : sameLetter c (lowerByte c) = true.
Proof.
  destruct c as [[|] [|] [|] [|] [|] [|] [|] [|]]; vm_compute; reflexivity.
Qed.

Lemma EqualFoldASCII_lower s : forall t,
  EqualFoldASCII s t = true -> mapBytes lowerByte s = mapBytes lowerByte t.
Proof.
  induction s as [|c s IH]; intros [|d t]; cbn [EqualFoldASCII mapBytes]; try done.
  intros [Hc Hs]%andb_true_iff. by rewrite (sameLetter_lowerByte c d Hc), (IH t Hs).
Qed.

(** A string that equals an all-ASCII lower-case word up to case is
    lowered to that word. *)
Lemma ToLower_fold u s w :
  isASCII w = true -> mapBytes lowerByte w = w ->
  EqualFoldASCII s w = true -> ToLower u s = w.
Proof.
  intros Hascii Hlow Heq%EqualFoldASCII_lower. rewrite Hlow in Heq.
  unfold ToLower. rewrite <- isASCII_mapBytes_lower, Heq, Hascii. done.
Qed.

Lemma mapBytes_lower_idem s :
  mapBytes lowerByte (mapBytes lowerByte s) = mapBytes lowerByte s.
Proof.
  induction s as [|c s IH]; [done|]. cbn [mapBytes]. rewrite IH. f_equal.
  destruct c as [[|] [|] [|] [|] [|] [|] [|] [|]]; vm_compute; reflexivity.
Qed.

Lemma ToLower_ascii_fold u s :
  isASCII s = true -> EqualFoldASCII s (ToLower u s) = true.
Proof.
  intros Hs. unfold ToLower. rewrite Hs. clear Hs.
  induction s as [|c s IH]; [done|].
  cbn [mapBytes EqualFoldASCII]. by rewrite sameLetter_lowered, IH.
Qed.

Lemma main_setup_bad_encryption X F σ :
  encryptionMode X F = None ->
  outcome (main_setup X F σ) = Halt (Exit 1)
  /\ none_of is_new_driver (events (main_setup X F σ)).
Proof.
  intros Henc. unfold main_setup. rewrite Henc. split.
  - rewrite outcome_bind. cbn [emit outcome final fst snd].
    rewrite outcome_bind.
    destruct (NewOutput X (fOutputFormat F)); [reflexivity|].
    cbn [ret outcome final fst snd]. rewrite outcome_bind. reflexivity.
  - unfold none_of. rewrite events_bind. cbn [emit events outcome final fst snd].
    rewrite events_bind.
    destruct (NewOutput X (fOutputFormat F)); [by repeat constructor|].
    cbn [ret events outcome final fst snd]. rewrite events_bind.
    by repeat constructor.
Qed.

Lemma encryptionMode_by_word X F w :
  w ∈ encryption_words ->
  EqualFoldASCII (fEncryptionMode F) w = true ->
  encryptionMode X F
  = Some (if String.eqb w "auto" then EncryptionAuto
          else if elem_str w encryption_on then EncryptionOn else EncryptionOff).
Proof.
  intros Hw Hfold. unfold encryptionMode.
  assert (Hlow : ToLower (unicodeLower X) (fEncryptionMode F) = w).
  { apply ToLower_fold; [| |done];
      unfold encryption_words, encryption_on, encryption_off in Hw; cbn [app] in Hw;
      repeat (apply elem_of_cons in Hw as [->|Hw]); try reflexivity;
      by apply elem_of_nil in Hw. }
  rewrite Hlow. fold encryption_on encryption_off.
  unfold encryption_words, encryption_on, encryption_off in Hw. cbn [app] in Hw.
  repeat (apply elem_of_cons in Hw as [->|Hw]); try reflexivity.
  by apply elem_of_nil in Hw.
Qed.

Lemma encryptionMode_no_word X F :
  ToLower (unicodeLower X) (fEncryptionMode F) ∉ encryption_words ->
  encryptionMode X F = None.
Proof.
  intros Hnot. unfold encryptionMode. fold encryption_on encryption_off.
  destruct (String.eqb_spec (ToLower (unicodeLower X) (fEncryptionMode F)) "auto")
    as [Heq|_].
  { exfalso. apply Hnot. rewrite Heq. by left. }
  destruct (elem_str _ encryption_on) eqn:Hon.
  { exfalso. apply Hnot. apply elem_str_true in Hon. right.
    apply elem_of_app. by left. }
  destruct (elem_str _ encryption_off) eqn:Hoff; [|done].
  exfalso. apply Hnot. apply elem_str_true in Hoff. right.
  apply elem_of_app. by right.
Qed.

(** C10: the encryption flag is matched without regard to case: a value
    that is "auto" up to the case of its letters selects automatic
    encryption, one that is "true", "yes", "y" or "1" up to case selects
    encryption on, one that is "false", "no", "n" or "0" up to case
    selects encryption off, and a value that is none of the nine words up
    to case ends the program (exit status 1) before a driver is created.
    A mode is selected for no other value.  (Go's lowering of a string
    with a non-ASCII byte never yields one of these nine words.) *)
Theorem C10_encryption_flag X F σ :
  (forall s, isASCII s = false -> unicodeLower X s ∉ encryption_words) ->
  (EqualFoldASCII (fEncryptionMode F) "auto" = true ->
   encryptionMode X F = Some EncryptionAuto)
  /\ (forall w, w ∈ ["true"; "yes"; "y"; "1"] ->
        EqualFoldASCII (fEncryptionMode F) w = true ->
        encryptionMode X F = Some EncryptionOn)
  /\ (forall w, w ∈ ["false"; "no"; "n"; "0"] ->
        EqualFoldASCII (fEncryptionMode F) w = true ->
        encryptionMode X F = Some EncryptionOff)
  /\ ((forall w, w ∈ encryption_words -> EqualFoldASCII (fEncryptionMode F) w = false) ->
      encryptionMode X F = None
      /\ outcome (main X F σ) = Halt (Exit 1)
      /\ none_of is_new_driver (events (main X F σ)))
  /\ (forall mode, encryptionMode X F = Some mode ->
        exists w, w ∈ encryption_words /\ EqualFoldASCII (fEncryptionMode F) w = true).
Proof.
  intros Hunicode.
  assert (Hword : ToLower (unicodeLower X) (fEncryptionMode F) ∈ encryption_words ->
                  exists w, w ∈ encryption_words
                            /\ EqualFoldASCII (fEncryptionMode F) w = true).
  { intros Hin. destruct (isASCII (fEncryptionMode F)) eqn:Hascii.
    - eexists. split; [exact Hin|]. by apply ToLower_ascii_fold.
    - unfold ToLower in Hin. rewrite Hascii in Hin. by destruct (Hunicode _ Hascii). }
  split; [|split; [|split; [|split]]].
  - intros Hfold. by rewrite (encryptionMode_by_word X F "auto") by (done || by left).
  - intros w Hw Hfold.
    rewrite (encryptionMode_by_word X F w); [| |done].
    + repeat (apply elem_of_cons in Hw as [->|Hw]); try reflexivity.
      by apply elem_of_nil in Hw.
    + right. apply elem_of_app. by left.
  - intros w Hw Hfold.
    rewrite (encryptionMode_by_word X F w); [| |done].
    + repeat (apply elem_of_cons in Hw as [->|Hw]); try reflexivity.
      by apply elem_of_nil in Hw.
    + right. apply elem_of_app. by right.
  - intros Hnone.
    assert (Henc : encryptionMode X F = None).
    { apply encryptionMode_no_word. intros (w & Hw & Hfold)%Hword.
      by rewrite (Hnone w Hw) in Hfold. }
    split; [done|].
    destruct (main_setup_bad_encryption X F σ Henc) as [Hout Hev].
    rewrite main_outcome, main_events, Hout. split; [done|].
    by rewrite app_nil_r.
  - intros mode Hmode. apply Hword.
    destruct (decide (ToLower (unicodeLower X) (fEncryptionMode F) ∈ encryption_words))
      as [Hin|Hnot]; [done|].
    by rewrite (encryptionMode_no_word X F Hnot) in Hmode.
Qed.

Lemma sample_unicodeLower s :
  isASCII s = false -> unicodeLower sampleX s ∉ encryption_words.
Proof.
  intros Hs Hin. cbn in Hin.
  unfold encryption_words, encryption_on, encryption_off in Hin. cbn [app] in Hin.
  repeat (apply elem_of_cons in Hin as [->|Hin]); try discriminate Hs.
  by apply elem_of_nil in Hin.
Qed.

Lemma C10_encryption_flag_witness :
  (forall s, isASCII s = false -> unicodeLower sampleX s ∉ encryption_words)
  /\ encryptionMode sampleX (sampleF_encryption "AUTO") = Some EncryptionAuto
  /\ encryptionMode sampleX (sampleF_encryption "YeS") = Some EncryptionOn
  /\ encryptionMode sampleX (sampleF_encryption "False") = Some EncryptionOff
  /\ (encryptionMode sampleX (sampleF_encryption "on") = None
      /\ outcome (main sampleX (sampleF_encryption "on") ∅) = Halt (Exit 1)
      /\ none_of is_new_driver (events (main sampleX (sampleF_encryption "on") ∅))).
Proof.
  split; [exact sample_unicodeLower|]. split; [|split; [|split]].
  - apply (C10_encryption_flag sampleX (sampleF_encryption "AUTO") ∅ sample_unicodeLower).
    reflexivity.
  - apply (proj1 (proj2 (C10_encryption_flag sampleX (sampleF_encryption "YeS") ∅
                           sample_unicodeLower)) "yes"); [|reflexivity].
    apply list_elem_of_In. cbn. tauto.
  - apply (proj1 (proj2 (proj2 (C10_encryption_flag sampleX (sampleF_encryption "False") ∅
                                  sample_unicodeLower))) "false"); [|reflexivity].
    apply list_elem_of_In. cbn. tauto.
  - apply (proj1 (proj2 (proj2 (proj2 (C10_encryption_flag sampleX (sampleF_encryption "on")
                                         ∅ sample_unicodeLower))))).
    intros w Hw. unfold encryption_words, encryption_on, encryption_off in Hw.
    cbn [app] in Hw.
    repeat (apply elem_of_cons in Hw as [->|Hw]); try reflexivity.
    by apply elem_of_nil in Hw.
Defined.

Example encryption_modes :
  encryptionMode sampleX (sampleF_encryption "AUTO") = Some EncryptionAuto
  /\ encryptionMode sampleX (sampleF_encryption "True") = Some EncryptionOn
  /\ encryptionMode sampleX (sampleF_encryption "Y") = Some EncryptionOn
  /\ encryptionMode sampleX (sampleF_encryption "1") = Some EncryptionOn
  /\ encryptionMode sampleX (sampleF_encryption "NO") = Some EncryptionOff
  /\ encryptionMode sampleX (sampleF_encryption "0") = Some EncryptionOff
  /\ encryptionMode sampleX (sampleF_encryption "on") = None
  /\ encryptionMode sampleX (sampleF_encryption "") = None.
Proof. repeat split; vm_compute; reflexivity. Qed.

Example encryption_rejected :
  events (main sampleX (sampleF_encryption "maybe") ∅)
  = [EvNewOutput "auto";
     EvLogFatal "Invalid encryption mode 'maybe', needs to be one of 'auto', 'true' or 'false'"]
  /\ outcome (main sampleX (sampleF_encryption "maybe") ∅) = Halt (Exit 1).
Proof. split; vm_compute; reflexivity. Qed.

(** ** Ending the program *)

Lemma exits1_ret {A} (a : A) : exits1 (ret a).
Proof. intros σ s H. discriminate H. Qed.

Lemma exits1_emit e : exits1 (emit e).
Proof. intros σ s H. discriminate H. Qed.

Lemma exits1_log_Fatal {A} msg : exits1 (@log_Fatal A msg).
Proof. intros σ s H. by injection H as <-. Qed.

Lemma exits1_bind {A B} (m : M A) (f : A -> M B) :
  exits1 m -> (forall a, exits1 (f a)) -> exits1 (bind m f).
Proof.
  intros Hm Hf σ s. rewrite outcome_bind.
  destruct (outcome (m σ)) as [a|s'] eqn:Ho.
  - apply Hf.
  - intros [= <-]. by apply (Hm σ).
Qed.

Lemma exits1_foldM {A B} (f : B -> A -> M B) l :
  (forall b a, exits1 (f b a)) -> forall b, exits1 (foldM f b l).
Proof.
  intros Hf. induction l as [|a l IH]; intros b; cbn [foldM].
  - apply exits1_ret.
  - apply exits1_bind; [apply Hf|apply IH].
Qed.

Lemma aborts_log_Fatal {A} p msg : p (EvLogFatal msg) = false -> aborts p (@log_Fatal A msg).
Proof. intros Hp σ. split; [reflexivity|by repeat constructor]. Qed.

Lemma aborts_bind_l {A B} p (m : M A) (f : A -> M B) :
  aborts p m -> aborts p (bind m f).
Proof.
  intros Hm σ. destruct (Hm σ) as [Ho He].
  rewrite outcome_bind, Ho. split; [done|].
  unfold none_of. rewrite events_bind, Ho. by rewrite app_nil_r.
Qed.

Lemma aborts_bind_r {A B} p (m : M A) (f : A -> M B) :
  silent p m -> exits1 m -> (forall a, aborts p (f a)) -> aborts p (bind m f).
Proof.
  intros Hs Hx Hf σ. rewrite outcome_bind. unfold none_of. rewrite events_bind.
  destruct (outcome (m σ)) as [a|s] eqn:Ho.
  - destruct (Hf a (final (m σ))) as [Ho' He']. split; [done|].
    apply Forall_app. split; [apply Hs|done].
  - rewrite (Hx σ s Ho). split; [done|]. rewrite app_nil_r. apply Hs.
Qed.

(** ** The defines *)

Lemma define_stored X variables k v x :
  defineValue X v = Some x -> define X variables (k, v) = inr (<[k := x]> variables).
Proof.
  unfold defineValue, define. destruct (ParseInt v); [by intros [= <-]|].
  destruct (ParseFloat X v); [done|by intros [= <-]].
Qed.

Lemma define_rejected X variables k v :
  defineValue X v = None -> exists msg, define X variables (k, v) = inl msg.
Proof.
  unfold defineValue, define. destruct (ParseInt v); [done|].
  destruct (ParseFloat X v); [eauto|done].
Qed.

Lemma defineValue_number X v x : defineValue X v = Some x -> is_number x.
Proof.
  unfold defineValue, is_number. destruct (ParseInt v); [intros [= <-]; eauto|].
  destruct (ParseFloat X v); [done|intros [= <-]; eauto].
Qed.

Lemma defineAll_ok X l : forall variables σ,
  Forall (fun kv => is_Some (defineValue X kv.2)) l ->
  defineAll X variables l σ
  = ([], σ, Done (foldl (fun m kv => match defineValue X kv.2 with
                                     | Some x => <[kv.1 := x]> m
                                     | None => m
                                     end) variables l)).
Proof.
  induction l as [|[k v] l IH]; intros variables σ Hall; [done|].
  apply Forall_cons in Hall as [[x Hx] Hall]. cbn [snd] in Hx.
  unfold defineAll in *. cbn [foldM foldl fst snd].
  rewrite Hx. unfold bind at 1. rewrite (define_stored _ _ _ _ _ Hx).
  cbn [ret]. by rewrite IH.
Qed.

Lemma defineAll_rejected X p l : forall variables,
  (forall msg, p (EvLogFatal msg) = false) ->
  Exists (fun kv => defineValue X kv.2 = None) l ->
  aborts p (defineAll X variables l).
Proof.
  induction l as [|[k v] l IH]; intros variables Hp Hex.
  - by apply Exists_nil in Hex.
  - unfold defineAll in *. cbn [foldM].
    destruct (defineValue X v) as [x|] eqn:Hv.
    + rewrite (define_stored _ _ _ _ _ Hv).
      apply aborts_bind_r; [apply silent_ret|apply exits1_ret|].
      intros variables'. apply IH; [done|].
      apply Exists_cons in Hex as [Hex|Hex]; [|done]. cbn in Hex. congruence.
    + destruct (define_rejected X variables k v Hv) as [msg ->].
      apply aborts_bind_l. by apply aborts_log_Fatal.
Qed.

Lemma storeDefines_numbers X l : forall variables,
  (forall k x, variables !! k = Some x -> is_number x) ->
  forall k x, storeDefines X variables l !! k = Some x -> is_number x.
Proof.
  induction l as [|[k' v] l IH]; intros variables Hvars k x; [apply Hvars|].
  unfold storeDefines in *. cbn [foldl fst snd]. apply IH.
  destruct (defineValue X v) as [y|] eqn:Hv; [|done].
  intros k0 x0. destruct (decide (k' = k0)) as [->|Hne].
  - rewrite lookup_insert_eq. intros [= <-]. by apply (defineValue_number X v).
  - rewrite lookup_insert_ne by done. apply Hvars.
Qed.

Lemma storeDefines_keeps X l k : forall variables,
  is_Some (variables !! k) -> is_Some (storeDefines X variables l !! k).
Proof.
  induction l as [|[k' v] l IH]; intros variables Hk; [done|].
  unfold storeDefines in *. cbn [foldl fst snd]. apply IH.
  destruct (defineValue X v); [|done].
  destruct (decide (k' = k)) as [->|Hne].
  - rewrite lookup_insert_eq. eauto.
  - by rewrite lookup_insert_ne.
Qed.

Lemma storeDefines_integer X l k : forall variables,
  (exists n, variables !! k = Some (VInt n)) ->
  (forall v, (k, v) ∈ l -> is_Some (ParseInt v)) ->
  exists n, storeDefines X variables l !! k = Some (VInt n).
Proof.
  induction l as [|[k' v] l IH]; intros variables Hk Hint; [done|].
  unfold storeDefines in *. cbn [foldl fst snd]. apply IH.
  - destruct (defineValue X v) as [x|] eqn:Hv; [|done].
    destruct (decide (k' = k)) as [->|Hne].
    + rewrite lookup_insert_eq. destruct (Hint v ltac:(by left)) as [n Hn].
      unfold defineValue in Hv. rewrite Hn in Hv. injection Hv as <-. eauto.
    + by rewrite lookup_insert_ne.
  - intros v' Hin. apply Hint. by right.
Qed.

Lemma aborts_main_setup_defines X F p :
  (forall msg, p (EvLogFatal msg) = false) ->
  (forall a, p (EvNewOutput a) = false) ->
  (forall a b c d, p (EvNewDriver a b c d) = false) ->
  Exists (fun kv => defineValue X kv.2 = None) (fVariables F) ->
  aborts p (main_setup X F).
Proof.
  intros Hf Ho Hd Hex. unfold main_setup.
  apply aborts_bind_r; [by apply silent_emit|apply exits1_emit|intros _].
  apply aborts_bind_r.
  { destruct (NewOutput X _); [by apply silent_log_Fatal|apply silent_ret]. }
  { destruct (NewOutput X _); [apply exits1_log_Fatal|apply exits1_ret]. }
  intros _. apply aborts_bind_r.
  { destruct (encryptionMode X F); [apply silent_ret|by apply silent_log_Fatal]. }
  { destruct (encryptionMode X F); [apply exits1_ret|apply exits1_log_Fatal]. }
  intros mode.
  apply aborts_bind_r; [by apply silent_emit|apply exits1_emit|intros _].
  apply aborts_bind_r.
  { destruct (NewDriver X _ _ _ _); [by apply silent_log_Fatal|apply silent_ret]. }
  { destruct (NewDriver X _ _ _ _); [apply exits1_log_Fatal|apply exits1_ret]. }
  intros _. apply aborts_bind_l. by apply (defineAll_rejected X p).
Qed.

Lemma main_aborts_in_setup X F p :
  aborts p (main_setup X F) -> aborts p (main X F).
Proof. intros H. unfold main. by apply aborts_bind_l. Qed.

(** C9 (as the code has it): every -D value is parsed first as a 64-bit
    integer and stored as an integer when that succeeds, otherwise parsed
    as a 64-bit float and stored as a float, and otherwise the program
    ends (exit status 1) before any script is read or parsed and before
    any worker starts; so every variable holds an integer or a float,
    never a string, and the variables always contain [scale], as an
    integer unless a define named scale gives it another value. *)
Theorem C9_defines_are_numbers X F σ :
  (forall variables k v,
     match ParseInt v, ParseFloat X v with
     | Some n, _ => define X variables (k, v) = inr (<[k := VInt n]> variables)
     | None, inr f => define X variables (k, v) = inr (<[k := VFloat f]> variables)
     | None, inl _ => exists msg, define X variables (k, v) = inl msg
     end)
  /\ (Forall (fun kv => is_Some (defineValue X kv.2)) (fVariables F) ->
      exists variables,
        main_variables X F σ = ([], σ, Done variables)
        /\ (forall k x, variables !! k = Some x -> is_number x)
        /\ is_Some (variables !! "scale")
        /\ ((forall v, ("scale", v) ∈ fVariables F -> is_Some (ParseInt v)) ->
            exists n, variables !! "scale" = Some (VInt n)))
  /\ (Exists (fun kv => defineValue X kv.2 = None) (fVariables F) ->
      outcome (main X F σ) = Halt (Exit 1)
      /\ none_of is_script_event (events (main X F σ))
      /\ none_of is_worker_start (events (main X F σ))).
Proof.
  split; [|split].
  - intros variables k v. unfold define.
    destruct (ParseInt v); [done|]. destruct (ParseFloat X v); eauto.
  - intros Hall. exists (storeDefines X (<["scale" := VInt (fScale F)]> ∅) (fVariables F)).
    split; [apply (defineAll_ok X _ _ _ Hall)|]. split; [|split].
    + apply storeDefines_numbers. intros k x.
      destruct (decide ("scale" = k)) as [<-|Hne].
      * rewrite lookup_insert_eq. intros [= <-]. left. eauto.
      * by rewrite lookup_insert_ne, lookup_empty.
    + apply storeDefines_keeps. rewrite lookup_insert_eq. eauto.
    + apply storeDefines_integer. rewrite lookup_insert_eq. eauto.
  - intros Hex. split; [|split].
    + by apply (main_aborts_in_setup X F is_script_event),
        aborts_main_setup_defines.
    + by apply (main_aborts_in_setup X F is_script_event),
        aborts_main_setup_defines.
    + by apply (main_aborts_in_setup X F is_worker_start),
        aborts_main_setup_defines.
Qed.

(** C9 as stated fails: [-D scale=1.5] replaces the integer [scale] by a
    float. *)
Lemma C9_scale_replaced_by_float :
  exists variables,
    main_variables sampleX (sampleF_defines [("scale", "1.5")]) ∅
      = ([], ∅, Done variables)
    /\ variables !! "scale" = Some (VFloat three_halves).
Proof. eexists. split; [vm_compute; reflexivity|]. vm_compute. reflexivity. Qed.

Example defines_stored :
  exists variables,
    main_variables sampleX (sampleF_defines [("n", "-42"); ("f", "1.5")]) ∅
      = ([], ∅, Done variables)
    /\ variables !! "scale" = Some (VInt 1)
    /\ variables !! "n" = Some (VInt (-42))
    /\ variables !! "f" = Some (VFloat three_halves).
Proof.
  eexists. split; [vm_compute; reflexivity|]. repeat split; vm_compute; reflexivity.
Qed.

Example define_rejected_aborts :
  events (main sampleX (sampleF_defines [("name", "abc")]) ∅)
  = [EvNewOutput "auto";
     EvNewDriver "neo4j://localhost:7687" "neo4j" "neo4j" EncryptionAuto;
     EvLogFatal ("-D and --define values must be integers or floats, failing to parse 'abc': "
                 +:+ "strconv.ParseFloat: parsing abc: invalid syntax")]
  /\ outcome (main sampleX (sampleF_defines [("name", "abc")]) ∅) = Halt (Exit 1).
Proof. split; vm_compute; reflexivity. Qed.

Lemma C9_defines_witness :
  Forall (fun kv => is_Some (defineValue sampleX kv.2)) [("n", "-42"); ("f", "1.5")]
  /\ exists variables,
       main_variables sampleX (sampleF_defines [("n", "-42"); ("f", "1.5")]) ∅
         = ([], ∅, Done variables)
       /\ (forall k x, variables !! k = Some x -> is_number x)
       /\ is_Some (variables !! "scale")
       /\ ((forall v, ("scale", v) ∈ [("n", "-42"); ("f", "1.5")] -> is_Some (ParseInt v)) ->
           exists n, variables !! "scale" = Some (VInt n)).
Proof.
  assert (H : Forall (fun kv => is_Some (defineValue sampleX kv.2))
                [("n", "-42"); ("f", "1.5")])
    by (repeat constructor; eexists; vm_compute; reflexivity).
  split; [exact H|].
  exact (proj1 (proj2 (C9_defines_are_numbers sampleX
                         (sampleF_defines [("n", "-42"); ("f", "1.5")]) ∅)) H).
Defined.

(** ** The workloads *)

Lemma Split_no_sep sep s : contains sep s = false -> Split sep s = [s].
Proof.
  induction s as [|c s IH]; [done|]. cbn [contains Split].
  destruct (Ascii.eqb c sep); [done|]. cbn [orb]. intros H. by rewrite (IH H).
Qed.

Lemma append_nil_l s : "" +:+ s = s.
Proof. reflexivity. Qed.

Lemma append_cons c s t : String c s +:+ t = String c (s +:+ t).
Proof. reflexivity. Qed.

Lemma Split_at_sep sep a b :
  contains sep a = false -> Split sep (a +:+ String sep b) = a :: Split sep b.
Proof.
  induction a as [|c a IH].
  - intros _. rewrite append_nil_l. cbn [Split]. by rewrite Ascii.eqb_refl.
  - rewrite append_cons. cbn [contains Split].
    destruct (Ascii.eqb c sep); [done|]. cbn [orb]. intros H. by rewrite (IH H).
Qed.

Lemma digit_not_sep c d : digit c = Some d ->
  Ascii.eqb c "@" = false /\ Ascii.eqb c "-" = false /\ Ascii.eqb c "+" = false.
Proof.
  destruct c as [[|] [|] [|] [|] [|] [|] [|] [|]]; vm_compute; try discriminate; done.
Qed.

Lemma digits_no_sep s : forall acc n,
  digits_val acc s = Some n -> contains "@" s = false.
Proof.
  induction s as [|c s IH]; intros acc n; [done|].
  cbn [digits_val contains]. destruct (digit c) as [d|] eqn:Hd; [|done].
  cbn. destruct (digit_not_sep c d Hd) as (-> & _ & _). apply IH.
Qed.

Lemma digits_val_nonneg s : forall acc n, 0 <= acc -> digits_val acc s = Some n -> 0 <= n.
Proof.
  induction s as [|c s IH]; intros acc n Hacc; cbn [digits_val].
  - intros [= <-]. done.
  - destruct (digit c) as [d|] eqn:Hd; [|done]. cbn. apply IH.
    unfold digit in Hd. destruct (_ && _) eqn:Hr; [|done]. injection Hd as <-.
    apply andb_prop in Hr as [Hr _]. apply Z.leb_le in Hr. lia.
Qed.

(** A non-empty run of decimal digits below 2^63 is what [Atoi] reads
    as that number. *)
Lemma Atoi_digits s n :
  s <> "" -> digits_val 0 s = Some n -> n < 2 ^ 63 -> Atoi s = Some n.
Proof.
  intros Hne Hval Hlt. unfold Atoi, ParseInt. destruct s as [|c s]; [done|].
  pose proof (digits_val_nonneg _ _ _ (Z.le_refl 0) Hval) as Hpos.
  cbn [digits_val] in Hval. destruct (digit c) as [d|] eqn:Hd; [|done].
  destruct (digit_not_sep c d Hd) as (_ & -> & ->). cbn [orb].
  cbn [digits_val]. rewrite Hd. cbn in Hval |- *. rewrite Hval. cbn.
  unfold in_int64. replace (- 2 ^ 63 <=? n) with true by (symmetry; apply Z.leb_le; lia).
  by replace (n <? 2 ^ 63) with true by (symmetry; apply Z.ltb_lt; lia).
Qed.

Lemma workloadArgs_weighted path digits n :
  contains "@" path = false ->
  digits <> "" -> digits_val 0 digits = Some n -> n < 2 ^ 63 ->
  workloadArgs (path +:+ String "@" digits) = Some (path, n).
Proof.
  intros Hpath Hne Hval Hlt. unfold workloadArgs.
  rewrite (Split_at_sep _ _ _ Hpath), (Split_no_sep _ _ (digits_no_sep _ _ _ Hval)).
  by rewrite (Atoi_digits _ _ Hne Hval Hlt).
Qed.

Lemma workloadArgs_plain path :
  contains "@" path = false -> workloadArgs path = Some (path, 1).
Proof. intros Hpath. unfold workloadArgs. by rewrite (Split_no_sep _ _ Hpath). Qed.

Lemma workloadArgs_bad_weight path rest txt more :
  contains "@" path = false -> Split "@" rest = txt :: more -> Atoi txt = None ->
  workloadArgs (path +:+ String "@" rest) = None.
Proof.
  intros Hpath Hrest Hbad. unfold workloadArgs.
  by rewrite (Split_at_sep _ _ _ Hpath), Hrest, Hbad.
Qed.

Lemma exits1_createScript X path weight : exits1 (createScript X path weight).
Proof.
  unfold createScript, neobench_Parse. destruct (String.eqb path builtin_tpcb_like).
  - apply exits1_bind; [apply exits1_emit|intros; apply exits1_ret].
  - apply exits1_bind; [apply exits1_emit|intros _].
    destruct (ReadFile X path); [apply exits1_ret|].
    apply exits1_bind; [apply exits1_emit|intros; apply exits1_ret].
Qed.

Lemma exits1_main_workload X path : exits1 (main_workload X path).
Proof.
  unfold main_workload. destruct (workloadArgs path) as [[path' weight]|].
  - apply exits1_bind; [apply exits1_createScript|].
    intros [err|script]; [apply exits1_log_Fatal|apply exits1_ret].
  - apply exits1_log_Fatal.
Qed.

Lemma silent_main_workload X p path :
  (forall msg, p (EvLogFatal msg) = false) ->
  (forall a, p (EvReadFile a) = false) ->
  (forall a b c, p (EvParse a b c) = false) ->
  silent p (main_workload X path).
Proof.
  intros Hf Hr Hp. unfold main_workload.
  destruct (workloadArgs path) as [[path' weight]|].
  - apply silent_bind; [by apply silent_createScript|].
    intros [err|script]; [by apply silent_log_Fatal|apply silent_ret].
  - by apply silent_log_Fatal.
Qed.

Lemma exits1_main_variables X F : exits1 (main_variables X F).
Proof.
  unfold main_variables. apply exits1_foldM. intros variables kv.
  destruct (define X variables kv); [apply exits1_log_Fatal|apply exits1_ret].
Qed.

(** A workload whose weight is not an integer ends the program in the
    loop over the workloads, whatever the workloads before it did. *)
Lemma aborts_workloads X p l :
  (forall msg, p (EvLogFatal msg) = false) ->
  (forall a, p (EvReadFile a) = false) ->
  (forall a b c, p (EvParse a b c) = false) ->
  Exists (fun path => workloadArgs path = None) l ->
  forall acc,
    aborts p (foldM (fun acc a => let* b := main_workload X a in ret (acc ++ [b])) acc l).
Proof.
  intros Hf Hr Hp. induction l as [|path l IH]; intros Hex acc.
  - by apply Exists_nil in Hex.
  - cbn [foldM]. destruct (workloadArgs path) as [args|] eqn:Hargs.
    + apply aborts_bind_r.
      * apply silent_bind; [by apply silent_main_workload|intros; apply silent_ret].
      * apply exits1_bind; [apply exits1_main_workload|intros; apply exits1_ret].
      * intros acc'. apply IH.
        apply Exists_cons in Hex as [Hex|Hex]; [congruence|done].
    + apply aborts_bind_l, aborts_bind_l. unfold main_workload. rewrite Hargs.
      by apply aborts_log_Fatal.
Qed.

Lemma aborts_main_scripts X F p :
  (forall msg, p (EvLogFatal msg) = false) ->
  (forall a, p (EvReadFile a) = false) ->
  (forall a b c, p (EvParse a b c) = false) ->
  Exists (fun path => workloadArgs path = None) (fWorkloads F) ->
  aborts p (main_scripts X F).
Proof. intros Hf Hr Hp Hex. unfold main_scripts, forM. by apply aborts_workloads. Qed.

Lemma aborts_main_setup_scripts X F p :
  (forall msg, p (EvLogFatal msg) = false) ->
  (forall a, p (EvNewOutput a) = false) ->
  (forall a b c d, p (EvNewDriver a b c d) = false) ->
  (forall a, p (EvReadFile a) = false) ->
  (forall a b c, p (EvParse a b c) = false) ->
  Exists (fun path => workloadArgs path = None) (fWorkloads F) ->
  aborts p (main_setup X F).
Proof.
  intros Hf Ho Hd Hr Hp Hex. unfold main_setup.
  apply aborts_bind_r; [by apply silent_emit|apply exits1_emit|intros _].
  apply aborts_bind_r.
  { destruct (NewOutput X _); [by apply silent_log_Fatal|apply silent_ret]. }
  { destruct (NewOutput X _); [apply exits1_log_Fatal|apply exits1_ret]. }
  intros _. apply aborts_bind_r.
  { destruct (encryptionMode X F); [apply silent_ret|by apply silent_log_Fatal]. }
  { destruct (encryptionMode X F); [apply exits1_ret|apply exits1_log_Fatal]. }
  intros mode.
  apply aborts_bind_r; [by apply silent_emit|apply exits1_emit|intros _].
  apply aborts_bind_r.
  { destruct (NewDriver X _ _ _ _); [by apply silent_log_Fatal|apply silent_ret]. }
  { destruct (NewDriver X _ _ _ _); [apply exits1_log_Fatal|apply exits1_ret]. }
  intros _. apply aborts_bind_r;
    [by apply silent_main_variables|apply exits1_main_variables|intros variables].
  apply aborts_bind_l. by apply aborts_main_scripts.
Qed.

Lemma uint_small n : 0 <= n < 2 ^ 63 -> uint n = n.
Proof. intros Hn. unfold uint. apply Z.mod_small. lia. Qed.

(** C6 (as the code has it): for a workload [path@N], where [path] has
    no [@] and [N] is a run of decimal digits with a value below 2^63,
    the script is created from [path] with weight [N] (parsed from the
    file at [path], or from the built-in text when [path] is the built-in
    name); a workload without [@] has weight 1; and when the text between
    the first [@] and the next is not an integer the program ends (exit
    status 1) before any worker starts. *)
Theorem C6_workload_weight X F σ :
  (forall path digits n,
     contains "@" path = false ->
     digits <> "" -> digits_val 0 digits = Some n -> n < 2 ^ 63 ->
     workloadArgs (path +:+ "@" +:+ digits) = Some (path, n)
     /\ main_workload X (path +:+ "@" +:+ digits)
        = (let* r := createScript X path n in
           match r with
           | inl err => log_Fatal err
           | inr script => ret script
           end))
  /\ (forall path,
        contains "@" path = false ->
        workloadArgs path = Some (path, 1)
        /\ main_workload X path
           = (let* r := createScript X path 1 in
              match r with
              | inl err => log_Fatal err
              | inr script => ret script
              end))
  /\ (forall path weight content,
        path <> builtin_tpcb_like -> ReadFile X path = inr content ->
        events (createScript X path weight σ)
        = [EvReadFile path; EvParse path content weight])
  /\ (forall weight,
        events (createScript X builtin_tpcb_like weight σ)
        = [EvParse "builtin:tpcp-like" (TPCBLike X) weight])
  /\ (forall path rest txt more,
        contains "@" path = false -> Split "@" rest = txt :: more -> Atoi txt = None ->
        path +:+ "@" +:+ rest ∈ fWorkloads F ->
        outcome (main X F σ) = Halt (Exit 1)
        /\ none_of is_worker_start (events (main X F σ))).
Proof.
  split; [|split; [|split; [|split]]].
  - intros path digits n Hpath Hne Hval Hlt.
    pose proof (workloadArgs_weighted _ _ _ Hpath Hne Hval Hlt) as Hargs.
    change (path +:+ "@" +:+ digits) with (path +:+ String "@" digits).
    split; [done|]. unfold main_workload. rewrite Hargs.
    rewrite uint_small; [done|].
    split; [apply (digits_val_nonneg _ _ _ (Z.le_refl 0) Hval)|done].
  - intros path Hpath. pose proof (workloadArgs_plain _ Hpath) as Hargs.
    split; [done|]. unfold main_workload. by rewrite Hargs.
  - intros path weight content Hpath Hread. unfold createScript, neobench_Parse.
    destruct (String.eqb_spec path builtin_tpcb_like) as [Heq|_]; [done|].
    rewrite events_bind. cbn [emit events outcome final fst snd]. by rewrite Hread.
  - intros weight. reflexivity.
  - intros path rest txt more Hpath Hrest Hbad Hin.
    change (path +:+ "@" +:+ rest) with (path +:+ String "@" rest) in Hin.
    apply (main_aborts_in_setup X F is_worker_start).
    apply aborts_main_setup_scripts; try done.
    apply Exists_exists. eexists. split; [exact Hin|].
    by apply (workloadArgs_bad_weight _ _ txt more).
Qed.

Lemma C6_workload_weight_witness :
  (workloadArgs ("my.script" +:+ "@" +:+ "3") = Some ("my.script", 3)
   /\ main_workload sampleX ("my.script" +:+ "@" +:+ "3")
      = (let* r := createScript sampleX "my.script" 3 in
         match r with
         | inl err => log_Fatal err
         | inr script => ret script
         end))
  /\ (outcome (main sampleX (sampleF_run false ["my.script@x3"]) ∅) = Halt (Exit 1)
      /\ none_of is_worker_start (events (main sampleX (sampleF_run false ["my.script@x3"]) ∅))).
Proof.
  pose proof (C6_workload_weight sampleX (sampleF_run false ["my.script@x3"]) ∅)
    as (Hweighted & _ & _ & _ & Hbad).
  split.
  - apply Hweighted; [reflexivity|discriminate|reflexivity|reflexivity].
  - apply (Hbad "my.script" "x3" "x3" []); [reflexivity|reflexivity|reflexivity|].
    by left.
Defined.

(** C6 as stated fails: for [my.script@-2] the text after [@] is an
    integer, and the script is parsed with weight 2^64 - 2, not -2. *)
Lemma C6_negative_weight_wraps :
  main_workload sampleX "my.script@-2" ∅
  = ([EvReadFile "my.script"; EvParse "my.script" "RETURN 1;" 18446744073709551614],
     ∅,
     Done {| ScriptName := "my.script"; ScriptText := "RETURN 1;";
             ScriptWeight := 18446744073709551614 |}).
Proof. vm_compute. reflexivity. Qed.

(** A path that itself holds an [@] is cut at its first [@]. *)
Example workload_path_with_at :
  workloadArgs "runs@v2/my.script@3" = None
  /\ outcome (main sampleX (sampleF_run false ["runs@v2/my.script@3"]) ∅) = Halt (Exit 1).
Proof. split; vm_compute; reflexivity. Qed.

Example workload_weights :
  workloadArgs "my.script" = Some ("my.script", 1)
  /\ workloadArgs "my.script@12" = Some ("my.script", 12)
  /\ workloadArgs "builtin:tpcb-like@+3" = Some ("builtin:tpcb-like", 3)
  /\ workloadArgs "my.script@" = None
  /\ workloadArgs "my.script@1.5" = None
  /\ workloadArgs "my.script@9223372036854775808" = None.
Proof. repeat split; vm_compute; reflexivity. Qed.

(** ** The dataset initializer *)

Lemma initWorkload_builtin X paths scale σ :
  builtin_tpcb_like ∈ paths ->
  initWorkload X paths scale σ = ([EvInitTPCBLike scale], σ, Done (InitTPCBLike X scale)).
Proof.
  induction paths as [|path paths IH]; intros Hin.
  - by apply elem_of_nil in Hin.
  - cbn [initWorkload]. destruct (String.eqb_spec path builtin_tpcb_like) as [Heq|Hne].
    + reflexivity.
    + apply IH. apply elem_of_cons in Hin as [Heq|Hin]; [congruence|done].
Qed.

Lemma initWorkload_custom X paths scale σ :
  builtin_tpcb_like ∉ paths -> initWorkload X paths scale σ = ([], σ, Done None).
Proof.
  induction paths as [|path paths IH]; intros Hnot; [done|].
  cbn [initWorkload]. destruct (String.eqb_spec path builtin_tpcb_like) as [Heq|Hne].
  - exfalso. apply Hnot. rewrite Heq. by left.
  - apply IH. intros Hin. apply Hnot. by right.
Qed.

Lemma main_init_builtin X F σ :
  fInitMode F = true -> builtin_tpcb_like ∈ fWorkloads F ->
  main_init X F σ
  = match InitTPCBLike X (fScale F) with
    | Some e => ([EvInitTPCBLike (fScale F); EvLogFatal e], σ, Halt (Exit 1))
    | None => ([EvInitTPCBLike (fScale F)], σ, Done tt)
    end.
Proof.
  intros Hmode Hin. unfold main_init, bind. rewrite Hmode.
  rewrite (initWorkload_builtin _ _ _ _ Hin).
  destruct (InitTPCBLike X (fScale F)); reflexivity.
Qed.

Lemma main_init_custom X F σ :
  builtin_tpcb_like ∉ fWorkloads F -> main_init X F σ = ([], σ, Done tt).
Proof.
  intros Hnot. unfold main_init, bind. destruct (fInitMode F); [|done].
  by rewrite (initWorkload_custom _ _ _ _ Hnot).
Qed.

Lemma main_init_off X F σ : fInitMode F = false -> main_init X F σ = ([], σ, Done tt).
Proof. intros Hmode. unfold main_init. by rewrite Hmode. Qed.

Lemma silent_init_main_run X F wrk : silent is_init (main_run X F wrk).
Proof. by apply silent_main_run. Qed.

Lemma silent_init_main_setup X F : silent is_init (main_setup X F).
Proof. by apply silent_main_setup. Qed.

(** C8 (as the code has it): in init mode, once the setup has
    succeeded, the dataset initializer is invoked exactly once, before any
    worker is started, when the workloads include the built-in workload
    by its plain name, and its failure ends the program (exit status 1)
    with no worker started; it is not invoked when no workload names the
    built-in workload, nor when init mode is off. *)
Theorem C8_initializer X F σ :
  (fInitMode F = true -> builtin_tpcb_like ∈ fWorkloads F ->
   forall wrk, outcome (main_setup X F σ) = Done wrk ->
     exists post,
       events (main X F σ)
       = events (main_setup X F σ) ++ EvInitTPCBLike (fScale F) :: post
       /\ none_of is_init (events (main_setup X F σ))
       /\ none_of is_worker_start (events (main_setup X F σ))
       /\ none_of is_init post
       /\ (forall e, InitTPCBLike X (fScale F) = Some e ->
             outcome (main X F σ) = Halt (Exit 1)
             /\ none_of is_worker_start (events (main X F σ))))
  /\ ((forall path, path ∈ fWorkloads F ->
         head (Split "@" path) <> Some builtin_tpcb_like) ->
      none_of is_init (events (main X F σ)))
  /\ (fInitMode F = false -> none_of is_init (events (main X F σ))).
Proof.
  pose proof (silent_init_main_setup X F σ) as Hsetup_init.
  assert (Hsetup_start : none_of is_worker_start (events (main_setup X F σ)))
    by (by apply silent_main_setup).
  assert (Hno_init : main_init X F (final (main_setup X F σ))
                     = ([], final (main_setup X F σ), Done tt) ->
                     none_of is_init (events (main X F σ))).
  { intros Hinit. unfold none_of. rewrite main_events. apply Forall_app.
    split; [done|]. destruct (outcome (main_setup X F σ)) as [wrk|]; [|constructor].
    cbn zeta. rewrite Hinit. cbn [events outcome final fst snd app].
    apply silent_init_main_run. }
  split; [|split].
  - intros Hmode Hin wrk Hsetup.
    pose proof (main_init_builtin X F (final (main_setup X F σ)) Hmode Hin) as Hinit.
    rewrite main_events, main_outcome, Hsetup. cbn zeta. rewrite Hinit.
    destruct (InitTPCBLike X (fScale F)) as [e|]; cbn [events outcome final fst snd].
    + exists [EvLogFatal e]. split; [by rewrite app_nil_r|].
      repeat split; try done; [by repeat constructor|].
      apply Forall_app. split; [done|by repeat constructor].
    + eexists. split; [reflexivity|]. repeat split; try done.
      apply silent_init_main_run.
  - intros Hcustom. apply Hno_init.
    apply main_init_custom. intros Hin. by apply (Hcustom _ Hin).
  - intros Hmode. apply Hno_init.
    by apply main_init_off.
Qed.

Lemma C8_initializer_witness :
  (fInitMode (sampleF_run true [builtin_tpcb_like]) = true
   /\ builtin_tpcb_like ∈ fWorkloads (sampleF_run true [builtin_tpcb_like])
   /\ outcome (main_setup sampleX (sampleF_run true [builtin_tpcb_like]) ∅)
      = Done {| Variables := {["scale" := VInt 1]};
                Scripts := [ {| ScriptName := "builtin:tpcp-like";
                                ScriptText := TPCBLike sampleX;
                                ScriptWeight := 1 |} ] |})
  /\ exists post,
       events (main sampleX (sampleF_run true [builtin_tpcb_like]) ∅)
       = events (main_setup sampleX (sampleF_run true [builtin_tpcb_like]) ∅)
         ++ EvInitTPCBLike 1 :: post
       /\ none_of is_init (events (main_setup sampleX (sampleF_run true [builtin_tpcb_like]) ∅))
       /\ none_of is_worker_start
            (events (main_setup sampleX (sampleF_run true [builtin_tpcb_like]) ∅))
       /\ none_of is_init post
       /\ (forall e, InitTPCBLike sampleX 1 = Some e ->
             outcome (main sampleX (sampleF_run true [builtin_tpcb_like]) ∅) = Halt (Exit 1)
             /\ none_of is_worker_start
                  (events (main sampleX (sampleF_run true [builtin_tpcb_like]) ∅))).
Proof.
  assert (Hin : builtin_tpcb_like ∈ fWorkloads (sampleF_run true [builtin_tpcb_like]))
    by (by left).
  assert (Hsetup : outcome (main_setup sampleX (sampleF_run true [builtin_tpcb_like]) ∅)
                   = Done {| Variables := {["scale" := VInt 1]};
                             Scripts := [ {| ScriptName := "builtin:tpcp-like";
                                             ScriptText := TPCBLike sampleX;
                                             ScriptWeight := 1 |} ] |})
    by (vm_compute; reflexivity).
  split; [split; [reflexivity|split; [exact Hin|exact Hsetup]]|].
  exact (proj1 (C8_initializer sampleX (sampleF_run true [builtin_tpcb_like]) ∅)
           eq_refl Hin _ Hsetup).
Defined.

(** C8 as stated fails: in init mode with a workload of the user's own
    the run goes through, both workers start, and the initializer is
    never invoked. *)
Lemma C8_custom_workload_not_initialized :
  fInitMode (sampleF_run true ["my.script"]) = true
  /\ List.filter is_init (events (main sampleX (sampleF_run true ["my.script"]) ∅)) = []
  /\ worker_starts (events (main sampleX (sampleF_run true ["my.script"]) ∅))
     = [(0, 0); (1, 0)]
  /\ outcome (main sampleX (sampleF_run true ["my.script"]) ∅) = Halt (Exit 0).
Proof. repeat split; vm_compute; reflexivity. Qed.

(** With the built-in workload the initializer runs once, before the
    workers start. *)
Example init_then_workers :
  List.filter (fun e => is_init e || is_worker_start e)
    (events (main sampleX (sampleF_run true [builtin_tpcb_like]) ∅))
  = [EvInitTPCBLike 1; EvWorkerStart 0 0; EvWorkerStart 1 0].
Proof. vm_compute. reflexivity. Qed.

(** [initWorkload] compares the workload as given, weight suffix
    included. *)
Example init_with_weighted_builtin :
  List.filter is_init
    (events (main sampleX (sampleF_run true ["builtin:tpcb-like@2"]) ∅)) = [].
Proof. vm_compute. reflexivity. Qed.

(** * Further properties of main.go *)

(** ** collectResults *)

Lemma sumZ_Permutation l l' : l ≡ₚ l' -> sumZ l = sumZ l'.
Proof.
  induction 1 as [|x l l' _ IH|x y l|l1 l2 l3 _ IH1 _ IH2].
  - done.
  - by rewrite !sumZ_cons, IH.
  - rewrite !sumZ_cons. lia.
  - by rewrite IH1.
Qed.

Lemma sumZ_app l l' : sumZ (l ++ l') = sumZ l + sumZ l'.
Proof.
  induction l as [|x l IH]; [done|].
  cbn [app]. rewrite !sumZ_cons, IH. lia.
Qed.

Lemma foldl_mergeAt_counts gs acc :
  FailureGroup.Count <$> foldl mergeAt acc gs
  = match acc, gs with
    | None, [] => None
    | _, _ => Some (default 0 (FailureGroup.Count <$> acc)
                    + sumZ (FailureGroup.Count <$> gs))
    end.
Proof.
  destruct acc as [e|]; [|destruct gs as [|g gs]]; cbn [foldl].
  - rewrite foldl_mergeAt_Some. cbn. done.
  - done.
  - unfold mergeAt at 2. rewrite foldl_mergeAt_Some, fmap_cons, sumZ_cons. cbn.
    by f_equal.
Qed.

(** X1: the loop over the results logs every worker with a fatal error
    exactly once, as "Worker failed: <error>", in arrival order, and logs
    nothing else; a run in which no worker is fatal logs nothing. *)
Theorem X1_collectResults_logs_fatal_workers scenario results σ :
  histograms_present σ results ->
  events (collectResults scenario (Z.of_nat (length results)) results σ)
  = omap (fun r => (fun e => EvErrorf ("Worker failed: " +:+ e)) <$> WorkerResult.Error r)
      results
  /\ (length (events (collectResults scenario (Z.of_nat (length results)) results σ))
      + length (nonfatal results) = length results)%nat.
Proof.
  intros Hpres. rewrite (collectResults_run _ _ _ Hpres). cbn [events fst].
  split; [done|]. clear Hpres.
  induction results as [|r rs IH]; [done|].
  destruct (WorkerResult.Error r) as [e|] eqn:He.
  - rewrite (fatal_events_cons_fatal _ _ _ He), (nonfatal_cons_fatal _ _ _ He).
    cbn [length]. lia.
  - rewrite (fatal_events_cons_ok _ _ He), (nonfatal_cons_ok _ _ He).
    cbn [length]. lia.
Qed.

Lemma X1_collectResults_logs_witness :
  histograms_present sample_store sample_results
  /\ events (collectResults "run" (Z.of_nat (length sample_results)) sample_results
               sample_store)
     = [EvErrorf "Worker failed: connection refused"].
Proof.
  split; [exact sample_results_present|].
  exact (proj1 (X1_collectResults_logs_fatal_workers "run" sample_results sample_store
                  sample_results_present)).
Defined.

Lemma counts_Permutation (gs gs' : list FailureGroup.t) :
  gs ≡ₚ gs' ->
  match gs with [] => None | _ :: _ => Some (sumZ (FailureGroup.Count <$> gs)) end
  = match gs' with [] => None | _ :: _ => Some (sumZ (FailureGroup.Count <$> gs')) end.
Proof.
  intros Hp. destruct gs as [|g gs], gs' as [|g' gs'].
  - done.
  - by apply Permutation_nil_l in Hp.
  - by apply Permutation_nil_r in Hp.
  - f_equal. apply sumZ_Permutation. by rewrite Hp.
Qed.

Lemma aggregate_count scenario σ results k :
  FailureGroup.Count <$> (Result.FailedByErrorGroup (aggregate scenario σ results) !! k)
  = match groupsAt k (nonfatal results) with
    | [] => None
    | _ :: _ => Some (sumZ (FailureGroup.Count <$> groupsAt k (nonfatal results)))
    end.
Proof.
  unfold aggregate. cbn [Result.FailedByErrorGroup].
  rewrite addWorker_fold_lookup. cbn [Result.FailedByErrorGroup].
  rewrite lookup_empty, foldl_mergeAt_counts.
  by destruct (groupsAt k (nonfatal results)).
Qed.

(** X2: the integer parts of the aggregate do not depend on the order in
    which the workers' results arrive: for any two arrival orders
    collectResults gives the same error, the same TotalSucceeded and
    TotalFailed, and for every key the same failure Count. *)
Theorem X2_integer_totals_order_independent scenario results results' σ :
  histograms_present σ results ->
  results ≡ₚ results' ->
  exists total err total' err',
    outcome (collectResults scenario (Z.of_nat (length results)) results σ)
      = Done (total, err)
    /\ outcome (collectResults scenario (Z.of_nat (length results')) results' σ)
       = Done (total', err')
    /\ err = err'
    /\ Result.TotalSucceeded total = Result.TotalSucceeded total'
    /\ Result.TotalFailed total = Result.TotalFailed total'
    /\ (forall k,
          FailureGroup.Count <$> (Result.FailedByErrorGroup total !! k)
          = FailureGroup.Count <$> (Result.FailedByErrorGroup total' !! k)).
Proof.
  intros Hpres Hperm.
  pose proof (histograms_present_Permutation _ _ _ Hperm Hpres) as Hpres'.
  rewrite (collectResults_run _ _ _ Hpres), (collectResults_run _ _ _ Hpres').
  cbn [outcome snd].
  pose proof (nonfatal_Permutation _ _ Hperm) as Hnf.
  destruct (nonfatal results) as [|r rs] eqn:Hr, (nonfatal results') as [|r' rs'] eqn:Hr'.
  - do 4 eexists. repeat split; reflexivity.
  - by apply Permutation_nil_l in Hnf.
  - by apply Permutation_nil_r in Hnf.
  - exists (aggregate scenario σ results), None, (aggregate scenario σ results'), None.
    split; [done|]. split; [done|]. split; [done|].
    unfold aggregate at 1 2 3 4.
    cbn [Result.TotalSucceeded Result.TotalFailed].
    rewrite !addWorker_fold_Succeeded, !addWorker_fold_Failed, Hr, Hr'.
    cbn [Result.TotalSucceeded Result.TotalFailed].
    split; [|split].
    + f_equal. apply sumZ_Permutation. by rewrite Hnf.
    + f_equal. apply sumZ_Permutation. by rewrite Hnf.
    + intros k. rewrite !aggregate_count, Hr, Hr'.
      apply counts_Permutation. unfold groupsAt. by rewrite Hnf.
Qed.

Lemma X2_integer_totals_witness :
  (histograms_present sample_store sample_results
   /\ sample_results ≡ₚ reverse sample_results)
  /\ exists total err total' err',
       outcome (collectResults "run" (Z.of_nat (length sample_results))
                  sample_results sample_store) = Done (total, err)
       /\ outcome (collectResults "run" (Z.of_nat (length (reverse sample_results)))
                     (reverse sample_results) sample_store) = Done (total', err')
       /\ err = err'
       /\ Result.TotalSucceeded total = Result.TotalSucceeded total'
       /\ Result.TotalFailed total = Result.TotalFailed total'
       /\ (forall k,
             FailureGroup.Count <$> (Result.FailedByErrorGroup total !! k)
             = FailureGroup.Count <$> (Result.FailedByErrorGroup total' !! k)).
Proof.
  assert (Hperm : sample_results ≡ₚ reverse sample_results)
    by (symmetry; apply reverse_Permutation).
  split; [split; [exact sample_results_present|exact Hperm]|].
  exact (X2_integer_totals_order_independent "run" sample_results
           (reverse sample_results) sample_store sample_results_present Hperm).
Defined.

Lemma countAll_insert_fresh (m : gmap string FailureGroup.t) k g :
  m !! k = None -> countAll (<[k := g]> m) = FailureGroup.Count g + countAll m.
Proof.
  intros Hk. unfold countAll. rewrite map_fold_insert_L; [done| |done].
  intros. lia.
Qed.

Lemma countAll_lookup (m : gmap string FailureGroup.t) k g :
  m !! k = Some g -> countAll m = FailureGroup.Count g + countAll (delete k m).
Proof.
  intros Hk. unfold countAll. rewrite (map_fold_delete_L _ _ k g); [done| |done].
  intros. lia.
Qed.

Lemma countAll_mergeGroup total k g :
  countAll (mergeGroup total (k, g)) = countAll total + FailureGroup.Count g.
Proof.
  unfold mergeGroup. destruct (total !! k) as [e|] eqn:He.
  - rewrite <- insert_delete_eq, countAll_insert_fresh by apply lookup_delete_eq.
    rewrite (countAll_lookup total k e He). cbn. lia.
  - rewrite countAll_insert_fresh by done. lia.
Qed.

Lemma countAll_foldl_mergeGroup l total :
  countAll (foldl mergeGroup total l)
  = countAll total + sumZ ((fun kg => FailureGroup.Count kg.2) <$> l).
Proof.
  revert total. induction l as [|[k g] l IH]; intros total.
  - cbn. lia.
  - cbn [foldl]. rewrite IH, countAll_mergeGroup, fmap_cons, sumZ_cons. cbn. lia.
Qed.

Lemma countAll_map_to_list (m : gmap string FailureGroup.t) :
  sumZ ((fun kg => FailureGroup.Count kg.2) <$> map_to_list m) = countAll m.
Proof.
  unfold countAll. rewrite map_fold_foldr.
  induction (map_to_list m) as [|[k g] l IH]; [done|].
  rewrite fmap_cons, sumZ_cons, IH. done.
Qed.

Lemma countAll_addWorker total r :
  countAll (Result.FailedByErrorGroup (addWorker total r))
  = countAll (Result.FailedByErrorGroup total)
    + countAll (WorkerResult.FailedByErrorGroup r).
Proof.
  cbn [addWorker Result.FailedByErrorGroup].
  by rewrite countAll_foldl_mergeGroup, countAll_map_to_list.
Qed.

Lemma countAll_foldl_addWorker rs total :
  countAll (Result.FailedByErrorGroup (foldl addWorker total rs))
  = countAll (Result.FailedByErrorGroup total)
    + sumZ ((fun r => countAll (WorkerResult.FailedByErrorGroup r)) <$> rs).
Proof.
  revert total. induction rs as [|r rs IH]; intros total.
  - cbn. lia.
  - cbn [foldl]. rewrite IH, countAll_addWorker, fmap_cons, sumZ_cons. lia.
Qed.

(** X3: merging the failure groups neither loses nor invents a failure:
    the Counts of the aggregate, added over all its keys, equal the Counts
    of the workers without a fatal error, added over all their keys. *)
Theorem X3_failure_counts_conserved scenario results σ :
  histograms_present σ results ->
  exists total err,
    outcome (collectResults scenario (Z.of_nat (length results)) results σ)
      = Done (total, err)
    /\ countAll (Result.FailedByErrorGroup total)
       = sumZ ((fun r => countAll (WorkerResult.FailedByErrorGroup r))
                 <$> nonfatal results).
Proof.
  intros Hpres. rewrite (collectResults_run _ _ _ Hpres). cbn [outcome snd].
  destruct (nonfatal results) as [|r rs] eqn:Hnf.
  - do 2 eexists. split; [reflexivity|]. reflexivity.
  - do 2 eexists. split; [reflexivity|].
    unfold aggregate. cbn [Result.FailedByErrorGroup].
    rewrite countAll_foldl_addWorker, Hnf. cbn [Result.FailedByErrorGroup].
    unfold countAll at 1. rewrite map_fold_empty. lia.
Qed.

Lemma X3_failure_counts_witness :
  histograms_present sample_store sample_results
  /\ exists total err,
       outcome (collectResults "run" (Z.of_nat (length sample_results))
                  sample_results sample_store) = Done (total, err)
       /\ countAll (Result.FailedByErrorGroup total)
          = sumZ ((fun r => countAll (WorkerResult.FailedByErrorGroup r))
                    <$> nonfatal sample_results).
Proof.
  split; [exact sample_results_present|].
  exact (X3_failure_counts_conserved "run" sample_results sample_store
           sample_results_present).
Defined.

(** ** runBenchmark *)

Lemma workerDone_run X pace i σ :
  workerDone X pace i σ
  = (crash_events X pace [i],
     <[fresh (dom σ) := run_Samples (RunBenchmark X i pace)]> σ,
     Done (resultOf X pace i (fresh (dom σ)))).
Proof.
  unfold workerDone, crash_events, resultOf, bind, Import. cbn [WorkerResult.Error flat_map].
  destruct (run_Error (RunBenchmark X i pace)); reflexivity.
Qed.

Lemma crash_events_cons X pace i ids :
  crash_events X pace (i :: ids) = crash_events X pace [i] ++ crash_events X pace ids.
Proof. unfold crash_events. cbn [flat_map]. by rewrite app_nil_r. Qed.

Lemma workersDone_run X pace ids : forall acc σ,
  foldM (fun acc a => let* b := workerDone X pace a in ret (acc ++ [b])) acc ids σ
  = (crash_events X pace ids, (deliverAll X pace ids σ).2,
     Done (acc ++ (deliverAll X pace ids σ).1)).
Proof.
  induction ids as [|i ids IH]; intros acc σ.
  - cbn. by rewrite app_nil_r.
  - cbn [foldM deliverAll fst snd].
    erewrite bind_Done;
      [| unfold bind; rewrite workerDone_run; reflexivity | apply IH].
    rewrite (crash_events_cons X pace i ids), app_nil_r, <- app_assoc. reflexivity.
Qed.

Lemma deliverAll_spec X pace ids : forall σ,
  σ ⊆ (deliverAll X pace ids σ).2
  /\ Forall2 (delivered X pace (deliverAll X pace ids σ).2) ids
       (deliverAll X pace ids σ).1.
Proof.
  induction ids as [|i ids IH]; intros σ; cbn [deliverAll fst snd].
  - split; [done|constructor].
  - set (h := fresh (dom σ)).
    set (σ1 := <[h := run_Samples (RunBenchmark X i pace)]> σ).
    destruct (IH σ1) as [Hext Hall].
    assert (Hfresh : σ !! h = None) by apply not_elem_of_dom, is_fresh.
    split.
    + etrans; [|exact Hext]. by apply insert_subseteq.
    + constructor; [|done]. split; [done|]. cbn [resultOf WorkerResult.Latencies].
      eapply lookup_weaken; [|exact Hext]. apply lookup_insert_eq.
Qed.

Lemma delivered_present X pace σ ids results :
  Forall2 (delivered X pace σ) ids results -> histograms_present σ results.
Proof.
  intros Hall r Hr _. apply list_elem_of_lookup in Hr as [j Hj].
  destruct (Forall2_lookup_r _ _ _ _ _ Hall Hj) as (i & _ & _ & Hs). eauto.
Qed.

Lemma delivered_nonfatal {B} X pace σ (g : WorkerRun -> B) (g' : WorkerResult.t -> B)
    ids results :
  (forall i h, g' (resultOf X pace i h) = g (RunBenchmark X i pace)) ->
  Forall2 (delivered X pace σ) ids results ->
  g' <$> nonfatal results = g <$> okRuns ((fun i => RunBenchmark X i pace) <$> ids).
Proof.
  intros Hg. induction 1 as [|i r ids results [Hr Hs] _ IH]; [done|].
  rewrite fmap_cons. unfold okRuns in *.
  assert (He : WorkerResult.Error r = run_Error (RunBenchmark X i pace))
    by (by rewrite Hr).
  destruct (run_Error (RunBenchmark X i pace)) as [e|] eqn:Hrun.
  - rewrite (nonfatal_cons_fatal _ _ _ He), filter_cons_False by (by rewrite Hrun).
    exact IH.
  - rewrite (nonfatal_cons_ok _ _ He), filter_cons_True by done.
    rewrite !fmap_cons, IH. f_equal. by rewrite Hr, Hg.
Qed.

Lemma delivered_samples X pace σ ids results :
  Forall2 (delivered X pace σ) ids results ->
  all_samples σ (nonfatal results)
  = unionSamples (okRuns ((fun i => RunBenchmark X i pace) <$> ids)).
Proof.
  induction 1 as [|i r ids results [Hr Hs] _ IH]; [done|].
  rewrite fmap_cons. unfold okRuns in *.
  assert (He : WorkerResult.Error r = run_Error (RunBenchmark X i pace))
    by (by rewrite Hr).
  destruct (run_Error (RunBenchmark X i pace)) as [e|] eqn:Hrun.
  - rewrite (nonfatal_cons_fatal _ _ _ He), filter_cons_False by (by rewrite Hrun).
    exact IH.
  - rewrite (nonfatal_cons_ok _ _ He), filter_cons_True by done.
    cbn [all_samples unionSamples foldr].
    fold (all_samples σ (nonfatal results)).
    fold (unionSamples (filter (fun r => run_Error r = None)
                          ((fun i => RunBenchmark X i pace) <$> ids))).
    rewrite IH. unfold samples_of. by rewrite Hs.
Qed.

Lemma delivered_all_fatal X pace σ ids results :
  Forall2 (delivered X pace σ) ids results ->
  Forall (fun r => is_Some (WorkerResult.Error r)) results
  <-> Forall (fun r => is_Some (run_Error r)) ((fun i => RunBenchmark X i pace) <$> ids).
Proof.
  induction 1 as [|i r ids results [Hr Hs] _ IH]; [done|].
  rewrite fmap_cons, !Forall_cons, IH.
  assert (He : WorkerResult.Error r = run_Error (RunBenchmark X i pace))
    by (by rewrite Hr).
  by rewrite He.
Qed.

(** The run of [runBenchmark] for a pool of [numClients] >= 0 workers. *)
Lemma runBenchmark_run X scenario wrk runtime latencyMode numClients rate σ :
  0 <= numClients ->
  let pace := ratePerWorkerDuration X latencyMode numClients rate in
  let sent := deliverAll X pace (arrival X numClients) σ in
  runBenchmark X scenario wrk runtime latencyMode numClients rate σ
  = (EvSetupSignalHandler
       :: ((fun i => EvWorkerStart i pace) <$> seqZ 0 numClients)
       ++ [EvReportProgress "benchmark" "run"; EvAwaitCompletion runtime; EvStop;
           EvReportProgress "benchmark" "stopping"]
       ++ crash_events X pace (arrival X numClients)
       ++ events (collectResults scenario numClients sent.1 sent.2)
       ++ match outcome (collectResults scenario numClients sent.1 sent.2) with
          | Done _ | Halt (Panic _) => [EvStop]
          | Halt _ => []
          end,
     final (collectResults scenario numClients sent.1 sent.2),
     outcome (collectResults scenario numClients sent.1 sent.2)).
Proof.
  intros Hn pace sent. unfold runBenchmark. fold pace.
  replace (numClients <? 0) with false by (symmetry; apply Z.ltb_ge; lia).
  unfold bind at 1. cbn [emit]. unfold defer_stop.
  unfold bind at 1. cbn [ret].
  unfold bind at 1. rewrite startAll_run.
  do 4 (unfold bind at 1; cbn [emit]).
  unfold bind at 1. unfold forM. rewrite workersDone_run. cbn [app].
  fold sent.
  destruct (collectResults scenario numClients sent.1 sent.2) as [[t σ'] [r|[code|msg|]]];
    cbn [events final outcome fst snd app]; rewrite ?app_nil_r;
    repeat (rewrite <- app_assoc; cbn [app]); reflexivity.
Qed.

(** X4: for a pool of [numClients] >= 0 workers that each send their
    result, runBenchmark neither panics nor blocks and returns the
    aggregate of the workers' own runs: an error exactly when every run
    ended with an error, and otherwise a Result with the given scenario,
    one WorkerResult per client, TotalSucceeded, TotalFailed and
    TotalRate summed over the runs without an error, and a combined
    histogram holding the union of those runs' samples. *)
Theorem X4_runBenchmark_aggregates_worker_runs
    X scenario wrk runtime latencyMode numClients rate σ :
  0 <= numClients ->
  length (arrival X numClients) = Z.to_nat numClients ->
  let pace := ratePerWorkerDuration X latencyMode numClients rate in
  let runs := (fun i => RunBenchmark X i pace) <$> arrival X numClients in
  let run := runBenchmark X scenario wrk runtime latencyMode numClients rate σ in
  exists total err,
    outcome run = Done (total, err)
    /\ (is_Some err <-> Forall (fun r => is_Some (run_Error r)) runs)
    /\ (err = None ->
        Result.Scenario total = scenario
        /\ length (Result.Workers total) = Z.to_nat numClients
        /\ Result.TotalSucceeded total = sumZ (run_Succeeded <$> okRuns runs)
        /\ Result.TotalFailed total = sumZ (run_Failed <$> okRuns runs)
        /\ Result.TotalRate total
           = foldl f64_add (S754_zero false) (run_Rate <$> okRuns runs)
        /\ exists h,
             Result.TotalLatencies total = Some h
             /\ final run !! h = Some (unionSamples (okRuns runs))).
Proof.
  intros Hn Hlen pace runs run. subst run.
  rewrite (runBenchmark_run X scenario wrk runtime latencyMode numClients rate σ Hn).
  cbn zeta. fold pace. cbn [outcome final fst snd].
  destruct (deliverAll_spec X pace (arrival X numClients) σ) as [_ Hall].
  set (sent := deliverAll X pace (arrival X numClients) σ) in *.
  pose proof (delivered_present _ _ _ _ _ Hall) as Hpres.
  assert (Hcount : numClients = Z.of_nat (length sent.1)).
  { rewrite <- (Forall2_length _ _ _ Hall), Hlen. lia. }
  replace (collectResults scenario numClients sent.1 sent.2)
    with (collectResults scenario (Z.of_nat (length sent.1)) sent.1 sent.2)
    by (by rewrite <- Hcount).
  rewrite (collectResults_run _ _ _ Hpres).
  cbn [outcome final fst snd].
  pose proof (delivered_all_fatal _ _ _ _ _ Hall) as Hfatal. fold runs in Hfatal.
  destruct (nonfatal sent.1) as [|r rs] eqn:Hnf.
  - exists Result.zero, (Some "all workers failed"). split; [done|]. split; [|done].
    split; [|eauto]. intros _. apply Hfatal. by apply nonfatal_nil_iff.
  - exists (aggregate scenario sent.2 sent.1), None. split; [done|]. split.
    + split; [by intros [? ?]|]. intros Hall'. apply Hfatal, nonfatal_nil_iff in Hall'.
      congruence.
    + intros _. unfold aggregate.
      cbn [Result.Scenario Result.Workers Result.TotalSucceeded Result.TotalFailed
           Result.TotalRate Result.TotalLatencies].
      destruct (addWorker_fold_frame (nonfatal sent.1)
                  (Result.Build scenario (S754_zero false) 0 0 None ∅ sent.1))
        as (-> & _ & ->).
      rewrite addWorker_fold_Succeeded, addWorker_fold_Failed, addWorker_fold_Rate.
      cbn [Result.Scenario Result.Workers Result.TotalSucceeded Result.TotalFailed
           Result.TotalRate].
      rewrite (delivered_nonfatal X pace sent.2 run_Succeeded WorkerResult.Succeeded
                 _ _ ltac:(done) Hall).
      rewrite (delivered_nonfatal X pace sent.2 run_Failed WorkerResult.Failed
                 _ _ ltac:(done) Hall).
      rewrite (delivered_nonfatal X pace sent.2 run_Rate WorkerResult.Rate
                 _ _ ltac:(done) Hall).
      fold runs. split; [done|]. split; [lia|]. split; [lia|]. split; [lia|].
      split; [done|].
      exists (fresh (dom sent.2)). unfold combined, collected. rewrite Hnf.
      split; [done|]. rewrite lookup_insert_eq. f_equal.
      rewrite <- Hnf. apply (delivered_samples _ _ _ _ _ Hall).
Qed.

Lemma X4_runBenchmark_witness :
  (0 <= 2 /\ length (arrival sampleX 2) = Z.to_nat 2)
  /\ let pace := ratePerWorkerDuration sampleX false 2 (f64_of_int 1) in
     let runs := (fun i => RunBenchmark sampleX i pace) <$> arrival sampleX 2 in
     let run := runBenchmark sampleX "run" {| Variables := ∅; Scripts := [] |}
                  (60 * Second) false 2 (f64_of_int 1) ∅ in
     exists total err,
       outcome run = Done (total, err)
       /\ (is_Some err <-> Forall (fun r => is_Some (run_Error r)) runs)
       /\ (err = None ->
           Result.Scenario total = "run"
           /\ length (Result.Workers total) = Z.to_nat 2
           /\ Result.TotalSucceeded total = sumZ (run_Succeeded <$> okRuns runs)
           /\ Result.TotalFailed total = sumZ (run_Failed <$> okRuns runs)
           /\ Result.TotalRate total
              = foldl f64_add (S754_zero false) (run_Rate <$> okRuns runs)
           /\ exists h,
                Result.TotalLatencies total = Some h
                /\ final run !! h = Some (unionSamples (okRuns runs))).
Proof.
  split; [split; [lia|reflexivity]|].
  apply (X4_runBenchmark_aggregates_worker_runs sampleX "run"
           {| Variables := ∅; Scripts := [] |} (60 * Second) false 2 (f64_of_int 1) ∅);
    [lia|reflexivity].
Defined.

(** X5: the edges of the client count.  With a negative count
    runBenchmark panics when it makes the result channel, before any
    worker is started: all it has done is set up the signal handler, and
    the deferred stop() is called as the panic unwinds.  With zero
    clients no worker is started and the result is the error "all workers
    failed". *)
Theorem X5_runBenchmark_client_count_edges
    X scenario wrk runtime latencyMode numClients rate σ :
  (numClients < 0 ->
   runBenchmark X scenario wrk runtime latencyMode numClients rate σ
   = ([EvSetupSignalHandler; EvStop], σ, Halt (Panic "makechan: size out of range")))
  /\ (arrival X 0 = [] ->
      outcome (runBenchmark X scenario wrk runtime latencyMode 0 rate σ)
        = Done (Result.zero, Some "all workers failed")
      /\ worker_starts (events (runBenchmark X scenario wrk runtime latencyMode 0 rate σ))
         = []
      /\ final (runBenchmark X scenario wrk runtime latencyMode 0 rate σ) = σ).
Proof.
  split.
  - intros Hneg. unfold runBenchmark.
    replace (numClients <? 0) with true by (symmetry; apply Z.ltb_lt; lia).
    reflexivity.
  - intros Harr.
    rewrite (runBenchmark_run X scenario wrk runtime latencyMode 0 rate σ ltac:(lia)).
    cbn zeta. rewrite Harr. split; [reflexivity|]. split; reflexivity.
Qed.

Lemma X5_runBenchmark_edges_witness :
  (-1 < 0 /\ arrival sampleX 0 = [])
  /\ runBenchmark sampleX "run" {| Variables := ∅; Scripts := [] |} (60 * Second)
       false (-1) (f64_of_int 1) ∅
     = ([EvSetupSignalHandler; EvStop], ∅, Halt (Panic "makechan: size out of range"))
  /\ outcome (runBenchmark sampleX "run" {| Variables := ∅; Scripts := [] |} (60 * Second)
                false 0 (f64_of_int 1) ∅)
     = Done (Result.zero, Some "all workers failed").
Proof.
  split; [split; [lia|reflexivity]|].
  pose proof (X5_runBenchmark_client_count_edges sampleX "run"
                {| Variables := ∅; Scripts := [] |} (60 * Second) false (-1)
                (f64_of_int 1) ∅) as [Hneg Hzero].
  split; [apply Hneg; lia|]. apply Hzero. reflexivity.
Defined.

(** ** main: how it ends *)

Lemma noexit_ret {A} (a : A) : noexit (ret a).
Proof. intros σ code H. discriminate H. Qed.

Lemma noexit_emit e : noexit (emit e).
Proof. intros σ code H. discriminate H. Qed.

Lemma noexit_bind {A B} (m : M A) (f : A -> M B) :
  noexit m -> (forall a, noexit (f a)) -> noexit (bind m f).
Proof.
  intros Hm Hf σ code. rewrite outcome_bind.
  destruct (outcome (m σ)) as [a|s] eqn:Ho; [apply Hf|].
  intros [= ->]. by apply (Hm σ code).
Qed.

Lemma noexit_foldM {A B} (f : B -> A -> M B) l :
  (forall b a, noexit (f b a)) -> forall b, noexit (foldM f b l).
Proof.
  intros Hf. induction l as [|a l IH]; intros b; cbn [foldM].
  - apply noexit_ret.
  - apply noexit_bind; [apply Hf|apply IH].
Qed.

Lemma noexit_forM {A B} (f : A -> M B) l : (forall a, noexit (f a)) -> noexit (forM f l).
Proof.
  intros Hf. unfold forM. apply noexit_foldM. intros b a.
  apply noexit_bind; [apply Hf|intros; apply noexit_ret].
Qed.

Lemma noexit_load l : noexit (load l).
Proof. intros σ code. unfold load. by destruct (σ !! l). Qed.

Lemma noexit_Merge h from : noexit (Merge h from).
Proof.
  unfold Merge. apply noexit_bind; [apply noexit_load|]. intros hc.
  apply noexit_bind; [apply noexit_load|]. intros fc σ code H. discriminate H.
Qed.

Lemma noexit_collectResults scenario concurrency resultChan :
  noexit (collectResults scenario concurrency resultChan).
Proof.
  unfold collectResults. apply noexit_bind.
  - unfold receive. intros σ code. repeat case_match; discriminate.
  - intros results. apply noexit_bind.
    + apply noexit_foldM. intros [c total] r. unfold collectOne.
      destruct (WorkerResult.Error r).
      * apply noexit_bind; [apply noexit_emit|intros; apply noexit_ret].
      * apply noexit_bind; [|intros; apply noexit_ret]. destruct c.
        -- apply noexit_bind; [apply noexit_Merge|intros; apply noexit_ret].
        -- apply noexit_bind.
           ++ unfold Export. apply noexit_bind; [apply noexit_load|].
              intros; apply noexit_ret.
           ++ intros snapshot. apply noexit_bind; [|intros; apply noexit_ret].
              intros σ code H. discriminate H.
    + intros [[h|] total]; apply noexit_ret.
Qed.

Lemma noexit_defer_stop {A} (rest : M A) : noexit rest -> noexit (defer_stop rest).
Proof. intros Hrest σ code. rewrite outcome_defer_stop. apply Hrest. Qed.

Lemma noexit_runBenchmark X scenario wrk runtime latencyMode numClients rate :
  noexit (runBenchmark X scenario wrk runtime latencyMode numClients rate).
Proof.
  unfold runBenchmark. apply noexit_bind; [apply noexit_emit|intros _].
  apply noexit_defer_stop. cbn zeta.
  apply noexit_bind.
  { intros σ code. by destruct (numClients <? 0). }
  intros _. apply noexit_bind.
  { apply noexit_forM. intros i. apply noexit_emit. }
  intros _. repeat (apply noexit_bind; [apply noexit_emit|intros _]).
  apply noexit_bind.
  { apply noexit_forM. intros i σ code. by rewrite workerDone_run. }
  intros resultChan. apply noexit_collectResults.
Qed.

Lemma exits1_forM {A B} (f : A -> M B) l : (forall a, exits1 (f a)) -> exits1 (forM f l).
Proof.
  intros Hf. unfold forM. apply exits1_foldM. intros b a.
  apply exits1_bind; [apply Hf|intros; apply exits1_ret].
Qed.

Lemma exits1_main_setup X F : exits1 (main_setup X F).
Proof.
  unfold main_setup. apply exits1_bind; [apply exits1_emit|intros _].
  apply exits1_bind.
  { destruct (NewOutput X _); [apply exits1_log_Fatal|apply exits1_ret]. }
  intros _. apply exits1_bind.
  { destruct (encryptionMode X F); [apply exits1_ret|apply exits1_log_Fatal]. }
  intros mode. apply exits1_bind; [apply exits1_emit|intros _].
  apply exits1_bind.
  { destruct (NewDriver X _ _ _ _); [apply exits1_log_Fatal|apply exits1_ret]. }
  intros _. apply exits1_bind; [apply exits1_main_variables|intros variables].
  apply exits1_bind; [|intros; apply exits1_ret].
  apply exits1_forM. intros path. apply exits1_main_workload.
Qed.

Lemma exits1_main_init X F : exits1 (main_init X F).
Proof.
  unfold main_init. destruct (fInitMode F); [|apply exits1_ret].
  apply exits1_bind.
  - induction (fWorkloads F) as [|path paths IH]; cbn [initWorkload].
    + apply exits1_ret.
    + destruct (String.eqb path builtin_tpcb_like); [|done].
      apply exits1_bind; [apply exits1_emit|intros; apply exits1_ret].
  - intros [e|]; [apply exits1_log_Fatal|apply exits1_ret].
Qed.

Lemma silent_report_runBenchmark X scenario wrk runtime latencyMode numClients rate :
  silent is_report (runBenchmark X scenario wrk runtime latencyMode numClients rate).
Proof. by apply silent_runBenchmark. Qed.

Lemma main_run_unfold X F wrk :
  main_run X F wrk
  = (let* (result, err) :=
       runBenchmark X (describeScenario X F) wrk (wrap64 (fDuration F * Second))
         (fLatencyMode F) (fClients F) (fRate F) in
     match err with
     | Some e => emit (EvErrorf e) ;; halt (Exit 1)
     | None => emit (reportOf F result) ;; halt (Exit 0)
     end).
Proof. unfold main_run, reportOf. destruct (fLatencyMode F); reflexivity. Qed.

(** How the last part of [main] ends: with the report of the result
    [runBenchmark] returned and exit status 0, or without any report. *)
Lemma main_run_ends X F wrk σ :
  let bench := runBenchmark X (describeScenario X F) wrk (wrap64 (fDuration F * Second))
                 (fLatencyMode F) (fClients F) (fRate F) σ in
  (exists result,
     outcome bench = Done (result, None)
     /\ outcome (main_run X F wrk σ) = Halt (Exit 0)
     /\ events (main_run X F wrk σ) = events bench ++ [reportOf F result])
  \/ ((exists s, outcome (main_run X F wrk σ) = Halt s /\ fails s)
      /\ none_of is_report (events (main_run X F wrk σ))).
Proof.
  intros bench.
  pose proof (silent_report_runBenchmark X (describeScenario X F) wrk
                (wrap64 (fDuration F * Second)) (fLatencyMode F) (fClients F) (fRate F) σ)
    as Hsilent.
  pose proof (noexit_runBenchmark X (describeScenario X F) wrk
                (wrap64 (fDuration F * Second)) (fLatencyMode F) (fClients F) (fRate F) σ)
    as Hnoexit.
  rewrite main_run_unfold. unfold none_of. rewrite events_bind, outcome_bind.
  fold bench in Hsilent, Hnoexit |- *.
  destruct (outcome bench) as [[result [e|]]|s] eqn:Hbench.
  - right. split; [exists (Exit 1); split; [done|by left]|].
    apply Forall_app. split; [done|]. unfold reportOf. by repeat constructor.
  - left. by exists result.
  - right. split; [|by rewrite app_nil_r]. exists s. split; [done|].
    destruct s as [code|msg|].
    + by destruct (Hnoexit code).
    + right. right. eauto.
    + right. by left.
Qed.

Lemma main_ends X F σ :
  (exists pre result,
     outcome (main X F σ) = Halt (Exit 0)
     /\ events (main X F σ) = pre ++ [reportOf F result]
     /\ none_of is_report pre)
  \/ ((exists s, outcome (main X F σ) = Halt s /\ fails s)
      /\ none_of is_report (events (main X F σ))).
Proof.
  rewrite main_outcome, main_events.
  assert (Hsetup : none_of is_report (events (main_setup X F σ)))
    by (by apply silent_main_setup).
  destruct (outcome (main_setup X F σ)) as [wrk|s] eqn:Hout.
  2:{ right. rewrite (exits1_main_setup X F σ s Hout). split.
      - exists (Exit 1). split; [done|by left].
      - by rewrite app_nil_r. }
  cbn zeta. set (σ1 := final (main_setup X F σ)).
  assert (Hinit : none_of is_report (events (main_init X F σ1)))
    by (by apply silent_main_init).
  destruct (outcome (main_init X F σ1)) as [[]|s] eqn:Hout1.
  2:{ right. rewrite (exits1_main_init X F σ1 s Hout1). split.
      - exists (Exit 1). split; [done|by left].
      - apply Forall_app. split; [done|]. by rewrite app_nil_r. }
  destruct (main_run_ends X F wrk (final (main_init X F σ1)))
    as [(result & Hbench & -> & ->)|[Hfail Hrun]].
  - left. eexists _, result. split; [done|]. rewrite !app_assoc. split; [done|].
    apply Forall_app. split; [apply Forall_app; by split|].
    by apply silent_report_runBenchmark.
  - right. split; [done|]. apply Forall_app. split; [done|]. by apply Forall_app.
Qed.

(** X6: main never returns.  When pflag.Parse ends the program itself
    (invalid usage, a request for help) the exit status is Parse's and
    nothing else has been done.  Once Parse has returned, main ends the
    program with exit status 0 or 1, never another status.  Exit status 0
    then comes with exactly one report of a result, the last thing main
    does, a latency report in latency mode and a throughput report
    otherwise; every other ending comes with no report at all. *)
Theorem X6_main_exit_status_and_report X p σ :
  (forall a, outcome (main_with_Parse X p σ) <> Done a)
  /\ (forall code,
        outcome (main_with_Parse X p σ) = Halt (Exit code) ->
        code = 0 \/ code = 1 \/ p = ParseExit code)
  /\ (forall code, p = ParseExit code -> main_with_Parse X p σ = ([], σ, Halt (Exit code)))
  /\ (forall F,
        p = Parsed F ->
        outcome (main_with_Parse X p σ) = Halt (Exit 0) ->
        exists pre result,
          events (main_with_Parse X p σ)
          = pre ++ [if fLatencyMode F then EvReportLatency result
                    else EvReportThroughput result]
          /\ none_of is_report pre)
  /\ ((forall F, p = Parsed F -> outcome (main_with_Parse X p σ) <> Halt (Exit 0)) ->
      none_of is_report (events (main_with_Parse X p σ))).
Proof.
  destruct p as [F|code0]; cbn [main_with_Parse].
  2:{ split; [done|]. split; [intros code [= <-]; by right; right|].
      split; [by intros code [= <-]|]. split; [done|]. intros _. constructor. }
  destruct (main_ends X F σ)
    as [(pre & result & Hout & Hev & Hpre)|[(s & Hout & Hs) Hev]].
  - rewrite Hout. split; [done|]. split; [intros code [= <-]; by left|].
    split; [done|]. split.
    + intros F' [= <-] _. exists pre, result. by rewrite Hev.
    + intros Hnot. by destruct (Hnot F eq_refl).
  - rewrite Hout. split; [done|]. split; [|split; [done|split]].
    + intros code [= ->]. destruct Hs as [[= ->]|[?|[? ?]]]; [by right; left|done..].
    + intros F' _ [= ->]. destruct Hs as [?|[?|[? ?]]]; done.
    + done.
Qed.

Lemma X6_main_exit_status_witness :
  outcome (main_with_Parse sampleX (Parsed sampleF) ∅) = Halt (Exit 0)
  /\ exists pre result,
       events (main_with_Parse sampleX (Parsed sampleF) ∅)
       = pre ++ [EvReportThroughput result]
       /\ none_of is_report pre.
Proof.
  assert (H : outcome (main_with_Parse sampleX (Parsed sampleF) ∅) = Halt (Exit 0))
    by (vm_compute; reflexivity).
  split; [exact H|].
  exact (proj1 (proj2 (proj2 (proj2 (X6_main_exit_status_and_report sampleX
                                       (Parsed sampleF) ∅))))
           sampleF eq_refl H).
Defined.

(** ** The scripts of the workloads *)

Lemma Split_nonempty sep s : Split sep s <> [].
Proof. destruct s as [|c s]; cbn; [done|]. by repeat case_match. Qed.

Lemma Split_single sep s piece : Split sep s = [piece] -> s = piece.
Proof.
  revert piece. induction s as [|c s IH]; intros piece; cbn.
  - by intros [= <-].
  - destruct (Ascii.eqb c sep).
    + intros [= _ H]. by destruct (Split_nonempty sep s).
    + destruct (Split sep s) as [|piece' pieces] eqn:Hs;
        [by destruct (Split_nonempty sep s)|].
      intros [= <- ->]. by rewrite (IH piece').
Qed.

Lemma main_workload_final X path σ : final (main_workload X path σ) = σ.
Proof.
  unfold main_workload, createScript, neobench_Parse, log_Fatal, bind, emit, ret, halt.
  repeat case_match; simplify_eq/=; done.
Qed.

Lemma main_workload_done X path σ script :
  outcome (main_workload X path σ) = Done script <-> scriptFor X path script.
Proof.
  unfold scriptFor, main_workload.
  destruct (workloadArgs path) as [[p n]|] eqn:Hargs.
  2:{ split; [done|]. by intros (? & ? & ? & _). }
  unfold createScript, neobench_Parse, log_Fatal, bind, emit, ret, halt.
  split.
  - intros Hdone. exists p, n. split; [done|].
    destruct (String.eqb p builtin_tpcb_like) eqn:Hp; cbn in Hdone.
    + destruct (Parse X _ _ _) eqn:Hparse; cbn in Hdone; [done|].
      injection Hdone as <-. by cbn.
    + destruct (ReadFile X p) as [err|content] eqn:Hread; cbn in Hdone; [done|].
      destruct (Parse X _ _ _) eqn:Hparse; cbn in Hdone; [done|].
      injection Hdone as <-. by cbn.
  - intros (p' & n' & [= <- <-] & Hweight & Hname & Hparse).
    destruct script as [name text weight]. cbn in *. subst weight.
    destruct (String.eqb p builtin_tpcb_like) eqn:Hp.
    + destruct Hname as [-> ->]. cbn. by rewrite Hparse.
    + destruct Hname as [-> Hread]. rewrite Hread. cbn. by rewrite Hparse.
Qed.

Lemma workloads_final X l : forall acc σ,
  final (foldM (fun acc a => let* b := main_workload X a in ret (acc ++ [b])) acc l σ) = σ.
Proof.
  induction l as [|path l IH]; intros acc σ; [done|].
  cbn [foldM]. unfold bind at 1. unfold bind at 1.
  pose proof (main_workload_final X path σ) as Hfinal.
  destruct (main_workload X path σ) as [[t σ1] [script|s]]; cbn in Hfinal; subst σ1.
  - cbn. specialize (IH (acc ++ [script]) σ).
    destruct (foldM _ _ l σ) as [[t2 σ2] r]. by cbn in *.
  - done.
Qed.

Lemma workloads_done X l : forall acc σ res,
  outcome (foldM (fun acc a => let* b := main_workload X a in ret (acc ++ [b])) acc l σ)
    = Done res
  <-> exists scripts, res = acc ++ scripts /\ Forall2 (scriptFor X) l scripts.
Proof.
  induction l as [|path l IH]; intros acc σ res.
  - cbn. split.
    + intros [= <-]. exists []. by rewrite app_nil_r.
    + intros (scripts & -> & ->%Forall2_nil_inv_l). by rewrite app_nil_r.
  - cbn [foldM]. rewrite outcome_bind, outcome_bind.
    pose proof (main_workload_done X path σ) as Hdone.
    pose proof (main_workload_final X path σ) as Hfinal.
    destruct (outcome (main_workload X path σ)) as [script|s] eqn:Hout.
    + cbn. rewrite IH. split.
      * intros (scripts & -> & Hall). exists (script :: scripts).
        rewrite <- app_assoc. split; [done|]. constructor; [by apply Hdone|done].
      * intros (scripts & -> & (script' & scripts' & Hs & Hall & ->)%Forall2_cons_inv_l).
        apply Hdone in Hs. injection Hs as <-.
        exists scripts'. by rewrite <- app_assoc.
    + split; [done|].
      intros (scripts & -> & (script' & scripts' & Hs & Hall & ->)%Forall2_cons_inv_l).
      by apply Hdone in Hs.
Qed.

Lemma main_scripts_done X F σ scripts :
  outcome (main_scripts X F σ) = Done scripts
  <-> Forall2 (scriptFor X) (fWorkloads F) scripts.
Proof.
  unfold main_scripts, forM. rewrite workloads_done. split.
  - by intros (? & -> & ?).
  - intros H. by exists scripts.
Qed.

(** X7: the loop over the [-w] values gives one script per value, in
    the order of the values, or none at all: it returns a list of scripts
    exactly when each value has a weight that parses, names the built-in
    workload or a file that can be read, and is accepted by the parser.
    The script of the built-in workload carries the name
    "builtin:tpcp-like"; every other the path before the [@].  The loop
    leaves the histograms as they are. *)
Theorem X7_main_scripts_one_per_workload X F σ :
  final (main_scripts X F σ) = σ
  /\ (forall scripts,
        outcome (main_scripts X F σ) = Done scripts
        <-> Forall2 (scriptFor X) (fWorkloads F) scripts)
  /\ (forall scripts,
        outcome (main_scripts X F σ) = Done scripts ->
        length scripts = length (fWorkloads F)
        /\ forall i path script,
             fWorkloads F !! i = Some path -> scripts !! i = Some script ->
             ScriptName script
             = (if String.eqb (default "" (head (Split "@" path))) builtin_tpcb_like
                then "builtin:tpcp-like"
                else default "" (head (Split "@" path)))).
Proof.
  split; [apply workloads_final|]. split; [apply main_scripts_done|].
  intros scripts Hdone%main_scripts_done. split; [symmetry; by eapply Forall2_length|].
  intros i path script Hpath Hscript.
  destruct (Forall2_lookup_lr _ _ _ _ _ _ Hdone Hpath Hscript)
    as (p & n & Hargs & _ & Hname & _).
  assert (default "" (head (Split "@" path)) = p) as ->.
  { unfold workloadArgs in Hargs.
    destruct (Split "@" path) as [|part0 [|part1 parts]] eqn:Hsplit; cbn.
    - by destruct (Split_nonempty "@" path).
    - injection Hargs as <- _. symmetry. by apply (Split_single "@").
    - destruct (Atoi part1); by simplify_eq/=. }
  destruct (String.eqb p builtin_tpcb_like); by destruct Hname.
Qed.

Lemma X7_main_scripts_witness :
  Forall2 (scriptFor sampleX) ["my.script@3"; builtin_tpcb_like]
    [{| ScriptName := "my.script"; ScriptText := "RETURN 1;"; ScriptWeight := 3 |};
     {| ScriptName := "builtin:tpcp-like"; ScriptText := TPCBLike sampleX;
        ScriptWeight := 1 |}].
Proof.
  apply (proj1 (proj2 (X7_main_scripts_one_per_workload sampleX
                         (sampleF_run false ["my.script@3"; builtin_tpcb_like]) ∅))).
  vm_compute. reflexivity.
Defined.

Lemma outcome_bind_Done {A B} (m : M A) (f : A -> M B) σ b :
  outcome (bind m f σ) = Done b ->
  exists a, outcome (m σ) = Done a /\ outcome (f a (final (m σ))) = Done b.
Proof.
  rewrite outcome_bind. destruct (outcome (m σ)) as [a|s]; [|done].
  intros H. by exists a.
Qed.

Lemma main_setup_bad_workload X F σ :
  Exists (fun path => forall script, ~ scriptFor X path script) (fWorkloads F) ->
  outcome (main_setup X F σ) = Halt (Exit 1).
Proof.
  intros Hbad.
  destruct (outcome (main_setup X F σ)) as [wrk|s] eqn:Hout.
  2:{ by rewrite (exits1_main_setup X F σ s Hout). }
  exfalso. unfold main_setup in Hout.
  do 6 (apply outcome_bind_Done in Hout as (? & _ & Hout)).
  apply outcome_bind_Done in Hout as (scripts & Hall%main_scripts_done & _).
  apply Exists_exists in Hbad as (path & Hin & Hnone).
  apply list_elem_of_lookup in Hin as [i Hi].
  destruct (Forall2_lookup_l _ _ _ _ _ Hall Hi) as (script & _ & Hscript).
  by apply (Hnone script).
Qed.

(** X8: a [-w] value that cannot be made into a script, because the
    text after its [@] is not an integer, because its file cannot be
    read, or because the parser rejects it, ends main with exit status 1
    whatever the other flags are: the dataset is not initialized, no
    worker is started and no result is reported. *)
Theorem X8_bad_workload_aborts_main X F σ :
  Exists (fun path => forall script, ~ scriptFor X path script) (fWorkloads F) ->
  outcome (main X F σ) = Halt (Exit 1)
  /\ none_of is_init (events (main X F σ))
  /\ none_of is_worker_start (events (main X F σ))
  /\ none_of is_report (events (main X F σ)).
Proof.
  intros Hbad. pose proof (main_setup_bad_workload X F σ Hbad) as Hout.
  rewrite main_outcome, main_events, Hout, app_nil_r.
  split; [done|]. repeat split; by apply silent_main_setup.
Qed.

Lemma X8_bad_workload_witness :
  outcome (main sampleX (sampleF_run true [builtin_tpcb_like; "missing.script"]) ∅)
    = Halt (Exit 1)
  /\ none_of is_init
       (events (main sampleX (sampleF_run true [builtin_tpcb_like; "missing.script"]) ∅)).
Proof.
  assert (H : Exists (fun path => forall script, ~ scriptFor sampleX path script)
                (fWorkloads (sampleF_run true [builtin_tpcb_like; "missing.script"]))).
  { apply Exists_cons_tl, Exists_cons_hd.
    intros script (p & n & Hargs & _ & Hname & _).
    vm_compute in Hargs. injection Hargs as <- <-.
    vm_compute in Hname. by destruct Hname. }
  pose proof (X8_bad_workload_aborts_main sampleX
                (sampleF_run true [builtin_tpcb_like; "missing.script"]) ∅ H) as Hx.
  split; [apply Hx|apply Hx].
Defined.

(** ** The defines, whatever the order [range] visits them in *)

Lemma defineAll_final X l : forall variables σ, final (defineAll X variables l σ) = σ.
Proof.
  induction l as [|kv l IH]; intros variables σ; [done|].
  unfold defineAll in *. cbn [foldM]. unfold bind at 1.
  destruct (define X variables kv) as [msg|variables']; [done|].
  cbn. specialize (IH variables' σ).
  destruct (foldM _ variables' l σ) as [[t σ'] r]. by cbn in *.
Qed.

Lemma defines_checked X (l : list (string * string)) :
  {Forall (fun kv => is_Some (defineValue X kv.2)) l}
  + {Exists (fun kv => defineValue X kv.2 = None) l}.
Proof.
  apply Forall_Exists_dec. intros kv.
  destruct (defineValue X kv.2); [left; eauto|by right].
Qed.

Lemma storeDefines_lookup X l k : forall variables,
  NoDup l.*1 ->
  Forall (fun kv => is_Some (defineValue X kv.2)) l ->
  storeDefines X variables l !! k
  = match (list_to_map l : gmap string string) !! k with
    | Some v => defineValue X v
    | None => variables !! k
    end.
Proof.
  induction l as [|[k0 v0] l IH]; intros variables Hnodup Hall; [done|].
  apply NoDup_cons in Hnodup as [Hk0 Hnodup]. apply Forall_cons in Hall as [[x0 Hx0] Hall].
  cbn [fst snd] in Hx0.
  unfold storeDefines in *. cbn [foldl fst snd]. rewrite Hx0, (IH _ Hnodup Hall).
  rewrite list_to_map_cons. destruct (decide (k = k0)) as [->|Hne].
  - rewrite (not_elem_of_list_to_map_1 _ _ Hk0), !lookup_insert_eq. by cbn.
  - by rewrite !lookup_insert_ne.
Qed.

Lemma storeDefines_Permutation X l l' variables :
  NoDup l.*1 -> l ≡ₚ l' ->
  Forall (fun kv => is_Some (defineValue X kv.2)) l ->
  storeDefines X variables l = storeDefines X variables l'.
Proof.
  intros Hnodup Hperm Hall. apply map_eq. intros k.
  rewrite !storeDefines_lookup; [|by rewrite <- Hperm..|done|done].
  by rewrite (list_to_map_proper (M:=gmap string) l l' Hnodup Hperm).
Qed.

(** X9: a Go map is visited in no fixed order, and the defines do not
    depend on it.  Whatever order the loop over [fVariables] takes, main
    ends it the same way: with the same variables, or with exit status 1
    when some value is neither an integer nor a float.  In the variables
    every defined key holds the number its value parses to, [scale] holds
    [fScale] unless it is defined, and there is no other key. *)
Theorem X9_defines_order_independent X F F' σ :
  NoDup (fVariables F).*1 ->
  fVariables F ≡ₚ fVariables F' ->
  fScale F = fScale F' ->
  outcome (main_variables X F σ) = outcome (main_variables X F' σ)
  /\ final (main_variables X F σ) = final (main_variables X F' σ)
  /\ (forall variables k,
        outcome (main_variables X F σ) = Done variables ->
        variables !! k
        = match (list_to_map (fVariables F) : gmap string string) !! k with
          | Some v => defineValue X v
          | None => if decide (k = "scale") then Some (VInt (fScale F)) else None
          end).
Proof.
  intros Hnodup Hperm Hscale.
  change (main_variables X F) with
    (defineAll X (<["scale" := VInt (fScale F)]> ∅) (fVariables F)).
  change (main_variables X F') with
    (defineAll X (<["scale" := VInt (fScale F')]> ∅) (fVariables F')).
  rewrite !defineAll_final, <- Hscale. split; [|split; [done|]].
  - destruct (defines_checked X (fVariables F)) as [Hall|Hbad].
    + rewrite !defineAll_ok; [|by rewrite <- Hperm|done]. cbn.
      f_equal. by apply storeDefines_Permutation.
    + pose proof Hbad as Hbad'. rewrite Hperm in Hbad'.
      destruct (defineAll_rejected X (fun _ => false) _
                  (<["scale" := VInt (fScale F)]> ∅) (fun _ => eq_refl) Hbad σ) as [-> _].
      by destruct (defineAll_rejected X (fun _ => false) _
                     (<["scale" := VInt (fScale F)]> ∅) (fun _ => eq_refl) Hbad' σ)
        as [-> _].
  - intros variables k.
    destruct (defines_checked X (fVariables F)) as [Hall|Hbad].
    + rewrite defineAll_ok by done. intros [= <-].
      change (foldl _ ?m ?l) with (storeDefines X m l).
      rewrite storeDefines_lookup by done.
      destruct (list_to_map (fVariables F) !! k); [done|].
      destruct (decide (k = "scale")) as [->|Hne]; [by rewrite lookup_insert_eq|].
      by rewrite lookup_insert_ne, lookup_empty.
    + destruct (defineAll_rejected X (fun _ => false) _
                  (<["scale" := VInt (fScale F)]> ∅) (fun _ => eq_refl) Hbad σ) as [-> _].
      done.
Qed.

Lemma X9_defines_witness :
  outcome (main_variables sampleX (sampleF_defines [("a", "7"); ("scale", "1.5")]) ∅)
  = outcome (main_variables sampleX (sampleF_defines [("scale", "1.5"); ("a", "7")]) ∅).
Proof.
  apply (X9_defines_order_independent sampleX
           (sampleF_defines [("a", "7"); ("scale", "1.5")])
           (sampleF_defines [("scale", "1.5"); ("a", "7")]) ∅).
  - change (NoDup ["a"; "scale"]). apply NoDup_cons.
    split; [by intros [=]%list_elem_of_singleton|apply NoDup_singleton].
  - cbn. apply perm_swap.
  - reflexivity.
Defined.

(** ** awaitCompletion *)

Lemma Time_Sub_lt (t u c : Z) : t - u < c -> - 2 ^ 63 < c -> Time_Sub t u < c.
Proof.
  unfold Time_Sub. change (2 ^ 63) with 9223372036854775808. lia.
Qed.

Lemma awaitLoop_cons deadline originalDelta p polls :
  awaitLoop deadline originalDelta (p :: polls)
  = if stopped p then ([], true)
    else if Time_Sub deadline (now p) <? 2 * Second
         then ([AwSleep (Time_Sub deadline (now p))], true)
         else (reportAndSleep deadline originalDelta p
                 ++ (awaitLoop deadline originalDelta polls).1,
               (awaitLoop deadline originalDelta polls).2).
Proof. reflexivity. Qed.

Lemma awaitLoop_returns deadline originalDelta : forall polls p,
  advancing (p :: polls) ->
  deadline - now p < 2 * Second + Z.of_nat (length polls) * (Millisecond * 100) ->
  (awaitLoop deadline originalDelta (p :: polls)).2 = true
  /\ (length (filter (fun e => is_progress e = true)
                (awaitLoop deadline originalDelta (p :: polls)).1)
      <= length polls)%nat.
Proof.
  induction polls as [|q polls IH]; intros p Hadv Hleft; rewrite awaitLoop_cons.
  - destruct (stopped p); [done|].
    assert (Time_Sub deadline (now p) < 2 * Second) as ->%Z.ltb_lt; [|done].
    apply Time_Sub_lt; [|done]. cbn [length] in Hleft. lia.
  - destruct (stopped p); [split; [done|cbn [fst]; rewrite filter_nil; cbn; lia]|].
    destruct (Time_Sub deadline (now p) <? 2 * Second).
    { split; [done|]. cbn [fst]. rewrite filter_cons_False, filter_nil by done.
      cbn. lia. }
    destruct Hadv as [Hstep Hadv].
    destruct (IH q Hadv) as [Hret Hcount].
    { cbn [length] in Hleft. unfold Millisecond, Microsecond in *. lia. }
    cbn [fst snd]. split; [done|]. unfold reportAndSleep. cbn [app].
    rewrite filter_cons_True by done. rewrite filter_cons_False by done.
    cbn [length]. lia.
Qed.

Lemma awaitLoop_returned deadline originalDelta polls more :
  (awaitLoop deadline originalDelta polls).2 = true ->
  awaitLoop deadline originalDelta (polls ++ more) = awaitLoop deadline originalDelta polls.
Proof.
  induction polls as [|p polls IH]; [done|]. cbn [app]. rewrite !awaitLoop_cons.
  destruct (stopped p); [done|].
  destruct (Time_Sub deadline (now p) <? 2 * Second); [done|].
  cbn [snd]. intros H. by rewrite (IH H).
Qed.

(** X10: awaitCompletion returns.  With a clock that advances by at
    least the 100 ms slept between two turns, the loop ends within the
    turns it takes those 100 ms steps to bring the time left under two
    seconds, with at most one progress report per such step, and whatever
    could be observed after it returned plays no part. *)
Theorem X10_awaitCompletion_returns deadline start p polls more :
  advancing (p :: polls) ->
  deadline - now p < 2 * Second + Z.of_nat (length polls) * (Millisecond * 100) ->
  (awaitCompletion deadline start (p :: polls)).2 = true
  /\ (length (filter (fun e => is_progress e = true)
                (awaitCompletion deadline start (p :: polls)).1)
      <= length polls)%nat
  /\ awaitCompletion deadline start ((p :: polls) ++ more)
     = awaitCompletion deadline start (p :: polls).
Proof.
  intros Hadv Hleft. unfold awaitCompletion.
  destruct (awaitLoop_returns deadline (Duration_Seconds (Time_Sub deadline start))
              polls p Hadv Hleft) as [Hret Hcount].
  split; [done|]. split; [done|]. by apply awaitLoop_returned.
Qed.

Lemma X10_awaitCompletion_witness :
  (awaitCompletion (2150 * Millisecond) 0 sample_polls).2 = true.
Proof.
  apply (X10_awaitCompletion_returns (2150 * Millisecond) 0
           {| stopped := false; now := 0 |}
           [{| stopped := false; now := 100 * Millisecond |};
            {| stopped := false; now := 200 * Millisecond |}] []).
  - cbn. unfold Millisecond, Microsecond. lia.
  - cbn. unfold Second, Millisecond, Microsecond. lia.
Defined.

Lemma awaitLoop_trace deadline originalDelta : forall polls,
  exists n tail,
    (awaitLoop deadline originalDelta polls).1
    = flat_map (reportAndSleep deadline originalDelta) (take n polls) ++ tail
    /\ Forall (fun p => stopped p = false /\ 2 * Second <= Time_Sub deadline (now p))
         (take n polls)
    /\ match polls !! n with
       | None => tail = [] /\ (awaitLoop deadline originalDelta polls).2 = false
       | Some p =>
           (awaitLoop deadline originalDelta polls).2 = true
           /\ tail = (if stopped p then [] else [AwSleep (Time_Sub deadline (now p))])
           /\ (stopped p = false -> Time_Sub deadline (now p) < 2 * Second)
       end.
Proof.
  induction polls as [|p polls (n & tail & Hev & Hall & Hend)].
  - exists 0%nat, []. by cbn.
  - rewrite awaitLoop_cons. destruct (stopped p) eqn:Hstop.
    { exists 0%nat, []. cbn. by rewrite Hstop. }
    destruct (Time_Sub deadline (now p) <? 2 * Second) eqn:Hlt.
    { exists 0%nat, [AwSleep (Time_Sub deadline (now p))]. cbn. rewrite Hstop.
      apply Z.ltb_lt in Hlt. by repeat split. }
    exists (S n), tail. cbn [fst snd take flat_map lookup list_lookup].
    split; [by rewrite Hev|]. split; [|done].
    apply Forall_cons. split; [|done]. apply Z.ltb_ge in Hlt. by split.
Qed.

(** X11: what awaitCompletion does.  For some number of turns two
    seconds or more are left and no stop is seen: each of them reports
    progress once and sleeps 100 ms.  The turn after ends the loop: when
    it sees the stop, without another report or sleep; otherwise with one
    sleep for the time left, which is less than two seconds, and no look
    at the stop channel after it. *)
Theorem X11_awaitCompletion_trace deadline start polls :
  let originalDelta := Duration_Seconds (Time_Sub deadline start) in
  let run := awaitCompletion deadline start polls in
  exists n tail,
    run.1 = flat_map (reportAndSleep deadline originalDelta) (take n polls) ++ tail
    /\ Forall (fun p => stopped p = false /\ 2 * Second <= Time_Sub deadline (now p))
         (take n polls)
    /\ match polls !! n with
       | None => tail = [] /\ run.2 = false
       | Some p =>
           run.2 = true
           /\ tail = (if stopped p then [] else [AwSleep (Time_Sub deadline (now p))])
           /\ (stopped p = false -> Time_Sub deadline (now p) < 2 * Second)
           /\ forall more, awaitCompletion deadline start (polls ++ more) = run
       end.
Proof.
  intros originalDelta run.
  destruct (awaitLoop_trace deadline originalDelta polls) as (n & tail & Hev & Hall & Hend).
  exists n, tail. split; [done|]. split; [done|].
  destruct (polls !! n); [|done].
  destruct Hend as (Hret & Htail & Hlt). repeat split; try done.
  intros more. by apply awaitLoop_returned.
Qed.

(** ** The output and the driver *)

(** X12: main stops at the first thing it cannot set up.  When the
    output cannot be created it logs the error and exits with status 1
    before the driver is asked for; when the driver cannot be created it
    logs the error and exits with status 1 before any define is parsed or
    workload read.  In both cases nothing else is done. *)
Theorem X12_output_or_driver_failure X F σ :
  (forall err,
     NewOutput X (fOutputFormat F) = Some err ->
     main X F σ = ([EvNewOutput (fOutputFormat F); EvLogFatal err], σ, Halt (Exit 1)))
  /\ (forall mode err,
        NewOutput X (fOutputFormat F) = None ->
        encryptionMode X F = Some mode ->
        NewDriver X (fAddress F) (fUser F) (fPassword F) mode = Some err ->
        main X F σ
        = ([EvNewOutput (fOutputFormat F);
            EvNewDriver (fAddress F) (fUser F) (fPassword F) mode;
            EvLogFatal err], σ, Halt (Exit 1))).
Proof.
  split.
  - intros err Hout. unfold main, main_setup, log_Fatal, bind, emit, halt, ret.
    by rewrite Hout.
  - intros mode err Hout Hmode Hdriver.
    unfold main, main_setup, log_Fatal, bind, emit, halt, ret.
    by rewrite Hout, Hmode, Hdriver.
Qed.

Lemma X12_driver_failure_witness :
  main sampleX_no_driver sampleF ∅
  = ([EvNewOutput "auto";
      EvNewDriver "neo4j://localhost:7687" "neo4j" "neo4j" EncryptionAuto;
      EvLogFatal "connection refused"], ∅, Halt (Exit 1)).
Proof.
  apply (proj2 (X12_output_or_driver_failure sampleX_no_driver sampleF ∅)
           EncryptionAuto "connection refused"); reflexivity.
Defined.
